(** * CIFTools.Binary: the BinaryCIF decoder and its column view

    A shallow embedding of the namespace [CIFTools.Binary]: the encoding
    descriptors of [Binary/Encoding.ts], the decoder (the function [decode]
    and the namespace [Decoder]) and the column view ([Category],
    [wrapColumn] and the four column classes), followed by the properties
    of the decoders and of the column accessors.

    Conventions of the embedding:
    - a JavaScript number is a [Num]: [Int z] for an integral value, kept as
      an exact [Z] (the decoders only add and compare integers far below
      2^53, where binary64 arithmetic is exact), and [Flt f] for a binary64
      value, with the arithmetic of the kernel's primitive floats;
    - [option Num] is a read that may be [undefined] ([None]);
    - a typed array is the list of its elements together with its
      constructor; an element store converts as the typed array does
      (wrap-around for integers, rounding for Float32) and is ignored out of
      range, which is what stdpp's list insert does;
    - a call returns ([Ok]), throws ([Throw]), or is [Unmodelled]: its
      input has a shape that the TypeScript signature of the function
      excludes, or a [while] loop ran out of the fuel the model gives it
      (which the lemmas on the packing loops rule out);
    - a Uint8Array is [IntArr Uint8Array elems] when it spans its buffer,
      and [Uint8View before elems after] when it is a window on a larger
      buffer: [before] are the bytes of the buffer in front of the window
      (their number is [byteOffset]), [after] the bytes behind it; only the
      reinterpretations of [case 'ByteArray'] look at the buffer;
    - a string is the list of its characters.

    The classes [File] and [DataBlock] and the JSON projections follow
    the column classes. Of the column classes the accessors [getFloat] and
    [stringEquals], which call a parser declared outside these files, are
    not embedded. *)

From Stdlib Require Import ZArith Lia Floats.
From stdpp Require Import base option list strings gmap.

#[local] Open Scope Z_scope.

(** ** JavaScript values and outcomes *)

Inductive Exception :=
| Error (message : string)   (* throw new Error(message) *)
| TypeError                  (* a property read on undefined or null *)
| RangeError.                (* an invalid typed array length *)

Inductive Result (A : Type) :=
| Ok (a : A)
| Throw (e : Exception)
| Unmodelled.
Arguments Ok {A} a.
Arguments Throw {A} e.
Arguments Unmodelled {A}.

Definition Result_map {A B} (f : A → B) (m : Result A) : Result B :=
  match m with
  | Ok a => Ok (f a)
  | Throw e => Throw e
  | Unmodelled => Unmodelled
  end.
Infix "<$$>" := Result_map (at level 61, left associativity).
#[global] Instance Result_bind : MBind Result := λ A B f m,
  match m with
  | Ok a => f a
  | Throw e => Throw e
  | Unmodelled => Unmodelled
  end.

Inductive Num :=
| Int (z : Z)
| Flt (f : float).

(** The nearest binary64 value of an integer (exact up to 2^53). *)
Definition ofZ (z : Z) : float := SF2Prim (binary_normalize prec emax z 0 false).

Definition toFloat (n : Num) : float :=
  match n with
  | Int z => ofZ z
  | Flt f => f
  end.

(** [a + b] on numbers. *)
Definition add (a b : Num) : Num :=
  match a, b with
  | Int x, Int y => Int (x + y)
  | _, _ => Flt (toFloat a + toFloat b)
  end.

(** [a * b] on numbers. *)
Definition mul (a b : Num) : Num :=
  match a, b with
  | Int x, Int y => Int (x * y)
  | _, _ => Flt (toFloat a * toFloat b)
  end.

(** ToNumber of a read that may be undefined: NaN for [undefined]. *)
Definition toNumber (v : option Num) : Num := default (Flt nan) v.

(** [a + b] where either operand may be undefined. *)
Definition plus (a b : option Num) : Num := add (toNumber a) (toNumber b).

(** [a === b] on numbers: IEEE equality, so NaN differs from itself. *)
Definition strictEq (a b : Num) : bool :=
  match a, b with
  | Int x, Int y => x =? y
  | _, _ => PrimFloat.eqb (toFloat a) (toFloat b)
  end.

(** [t === lit] where [t] may be undefined and [lit] is a number. *)
Definition strictEqU (t : option Num) (lit : Z) : bool :=
  match t with
  | Some n => strictEq n (Int lit)
  | None => false
  end.

(** The integral part of a binary64 value, toward zero; 0 for NaN and the
    infinities (ToIntegerOrInfinity followed by the modulo of ToInt32 and of
    the typed array conversions sends them to 0). *)
Definition truncate (f : float) : Z :=
  match Prim2SF f with
  | S754_finite s m e =>
      let a := Z.shiftl (Z.pos m) e in
      if s then - a else a
  | _ => 0
  end.

Definition toInteger (n : Num) : Z :=
  match n with
  | Int z => z
  | Flt f => truncate f
  end.

Definition wrapS (bits z : Z) : Z := (z + 2 ^ (bits - 1)) mod 2 ^ bits - 2 ^ (bits - 1).
Definition wrapU (bits z : Z) : Z := z mod 2 ^ bits.

(** [n | 0], that is ToInt32. *)
Definition toInt32 (n : Num) : Z := wrapS 32 (toInteger n).

(** Math.fround: the nearest binary32 value, as a binary64. *)
Definition fround (f : float) : float :=
  match Prim2SF f with
  | S754_finite s m e =>
      SF2Prim (binary_normalize 24 128 (if s then Z.neg m else Z.pos m) e s)
  | _ => f
  end.

(** ** Typed arrays *)

Inductive IntKind := Int8Array | Int16Array | Int32Array | Uint8Array | Uint16Array | Uint32Array.
Inductive FloatKind := Float32Array | Float64Array.

(** Values held by rows of a plain Array: the strings and nulls that
    [stringArray] produces; more generally what a row read can give. *)
Inductive Val :=
| VUndefined
| VNull
| VNum (n : Num)
| VString (s : string).

(** The array-like objects that flow through the decoder. [IntArr] and
    [FloatArr] give a typed array by its constructor and its elements,
    which is all that a step reads of its input, the reinterpretations of
    [case 'ByteArray'] apart: those read the buffer of a Uint8Array.
    [IntArr Uint8Array elems] is a Uint8Array that spans its buffer, as
    every array that a decoder allocates does. [Uint8View before elems after]
    is the Uint8Array [new Uint8Array(buffer, byteOffset, length)] whose
    buffer holds the bytes [before ++ elems ++ after], with [byteOffset] the
    length of [before] and [length] the length of [elems]. *)
Inductive Arr :=
| IntArr (k : IntKind) (elems : list Z)
| FloatArr (k : FloatKind) (elems : list float)
| Array (elems : list Val)
| Uint8View (before elems after : list Z).

(** The conversion of an element store [a[i] = n] into an integer typed array. *)
Definition toElem (k : IntKind) (n : Num) : Z :=
  let z := toInteger n in
  match k with
  | Int8Array => wrapS 8 z
  | Int16Array => wrapS 16 z
  | Int32Array => wrapS 32 z
  | Uint8Array => wrapU 8 z
  | Uint16Array => wrapU 16 z
  | Uint32Array => wrapU 32 z
  end.

(** The conversion of an element store into a float typed array. *)
Definition toFloatElem (k : FloatKind) (n : Num) : float :=
  match k with
  | Float32Array => fround (toFloat n)
  | Float64Array => toFloat n
  end.

(** [data[i]] on the elements of an integer typed array. *)
Definition idx (data : list Z) (i : nat) : option Num := Int <$> data !! i.

(** [new XArray(size)]: [size] zeros, a RangeError for a negative length. *)
Definition newArray {A} (zero : A) (size : Z) : Result (list A) :=
  if size <? 0 then Throw RangeError else Ok (replicate (Z.to_nat size) zero).

(** The indices visited by [for (let i = start; i < stop; i += step)]. *)
Definition range (start stop step : nat) : list nat :=
  (λ h, start + h * step)%nat <$> seq 0 ((stop - start + step - 1) / step)%nat.

(** [for (let i = start; i < stop; i += step) body], threading the state. *)
Definition for_range {S} (start stop step : nat) (body : nat → S → S) (s : S) : S :=
  foldl (λ s i, body i s) s (range start stop step).

(** ** Binary/Encoding.ts *)

Module Encoding.

(** [const enum IntDataType] and [const enum FloatDataType], as the codes
    of the array kinds; [getDataType] reads them off an array. *)
Definition IntDataType (k : IntKind) : Z :=
  match k with
  | Int8Array => 1
  | Int16Array => 2
  | Int32Array => 3
  | Uint8Array => 4
  | Uint16Array => 5
  | Uint32Array => 6
  end.

Definition FloatDataType (k : FloatKind) : Z :=
  match k with
  | Float32Array => 32
  | Float64Array => 33
  end.

Definition getDataType (data : Arr) : Result Z :=
  match data with
  | IntArr k _ => Ok (IntDataType k)
  | FloatArr k _ => Ok (FloatDataType k)
  | Array _ => Throw (Error "Unsupported integer data type.")
  | Uint8View _ _ _ => Ok (IntDataType Uint8Array)
  end.

Definition isSignedIntegerDataType (data : Arr) : bool :=
  match data with
  | IntArr (Int8Array | Int16Array | Int32Array) _ => true
  | _ => false
  end.

End Encoding.

(** The encoding descriptors: the tagged union [Encoding], told apart by
    the string [kind]. [OtherKind] is a descriptor object whose [kind] is
    none of the seven strings of the union, which the wire format can carry
    although the TypeScript type excludes it. The data-type fields are the
    numeric codes as they are stored, valid or not. *)
#[warnings="-register-all"]
Inductive Encoding :=
| ByteArray (type : Z)
| FixedPoint (factor : float) (srcType : Z)
| IntervalQuantization (min max numSteps : float) (srcType : Z)
| RunLength (srcType : Z) (srcSize : Z)
| Delta (origin : Z) (srcType : Z)
| IntegerPacking (byteCount : Z) (isUnsigned : bool) (srcSize : Z)
| StringArray (dataEncoding : list Encoding) (stringData : string)
              (offsetEncoding : list Encoding) (offsets : Arr)
| OtherKind (kind : string).

Definition kind (encoding : Encoding) : string :=
  match encoding with
  | ByteArray _ => "ByteArray"
  | FixedPoint _ _ => "FixedPoint"
  | IntervalQuantization _ _ _ _ => "IntervalQuantization"
  | RunLength _ _ => "RunLength"
  | Delta _ _ => "Delta"
  | IntegerPacking _ _ _ => "IntegerPacking"
  | StringArray _ _ _ _ => "StringArray"
  | OtherKind kind => kind
  end.

(** [interface EncodedData]: the field [data] is [None] when the record
    carries none ([undefined] or [null], the falsy cases [wrapColumn]
    tests for), and otherwise the object it carries, by its type a
    Uint8Array; an empty one is [Some (IntArr Uint8Array [])]. *)
Module EncodedData.
Record t := {
  encoding : list Encoding;
  data : option Arr
}.
End EncodedData.

Module EncodedColumn.
Record t := {
  name : string;
  data : EncodedData.t;
  mask : option EncodedData.t
}.
End EncodedColumn.

Module EncodedCategory.
Record t := {
  name : string;
  rowCount : Z;
  columns : list EncodedColumn.t
}.
End EncodedCategory.

(** ** The decoder: the transforms *)

Module Decoder.

Definition getIntArray (type size : Z) : Result (IntKind * list Z) :=
  match type with
  | 1 (* IntDataType.Int8 *) => output ← newArray 0 size; Ok (Int8Array, output)
  | 2 (* IntDataType.Int16 *) => output ← newArray 0 size; Ok (Int16Array, output)
  | 3 (* IntDataType.Int32 *) => output ← newArray 0 size; Ok (Int32Array, output)
  | 4 (* IntDataType.Uint8 *) => output ← newArray 0 size; Ok (Uint8Array, output)
  | 5 (* IntDataType.Uint16 *) => output ← newArray 0 size; Ok (Uint16Array, output)
  | 6 (* IntDataType.Uint32 *) => output ← newArray 0 size; Ok (Uint32Array, output)
  | _ => Throw (Error "Unsupported integer data type.")
  end.

Definition getFloatArray (type size : Z) : Result (FloatKind * list float) :=
  match type with
  | 32 (* FloatDataType.Float32 *) => output ← newArray 0%float size; Ok (Float32Array, output)
  | 33 (* FloatDataType.Float64 *) => output ← newArray 0%float size; Ok (Float64Array, output)
  | _ => Throw (Error "Unsupported floating data type.")
  end.

(** [output[i] = v], [v] possibly undefined (stored as 0, like NaN). *)
Definition store (k : IntKind) (output : list Z) (i : nat) (v : option Num) : list Z :=
  <[i := toElem k (toNumber v)]> output.

(** The number of turns of [for (let j = 0; j < length; ++j)]. *)
Definition turns (length : option Z) : nat :=
  match length with
  | Some l => Z.to_nat l
  | None => 0%nat
  end.

Definition runLength (data : list Z) (srcType srcSize : Z) : Result Arr :=
  '(k, output) ← getIntArray srcType srcSize;
  let il := length data in
  let '(output, _) :=
    for_range 0 il 2 (λ i '(output, dataOffset),
      let value := idx data i in
      let length := data !! (i + 1)%nat in
      Nat.iter (turns length) (λ '(output, dataOffset),
        (store k output dataOffset value, S dataOffset)) (output, dataOffset))
      (output, 0%nat) in
  Ok (IntArr k output).

Definition delta (data : list Z) (origin srcType : Z) : Result Arr :=
  let n := length data in
  '(k, output) ← getIntArray srcType (Z.of_nat n);
  if (n =? 0)%nat then Ok (IntArr k output) else
  let output := store k output 0 (Some (plus (idx data 0) (Some (Int (toInt32 (Int origin)))))) in
  let output :=
    for_range 1 n 1 (λ i output,
      store k output i (Some (plus (idx data i) (idx output (i - 1))))) output in
  Ok (IntArr k output).

Definition fixedPoint (data : list Z) (factor : float) (srcType : Z) : Result Arr :=
  let n := length data in
  '(k, output) ← getFloatArray srcType (Z.of_nat n);
  let f := (1 / factor)%float in
  let output :=
    for_range 0 n 1 (λ i output,
      <[i := toFloatElem k (mul (Flt f) (toNumber (idx data i)))]> output) output in
  Ok (FloatArr k output).

Definition intervalQuantization (data : list Z) (min max numSteps : float) (srcType : Z)
  : Result Arr :=
  let n := length data in
  '(k, output) ← getFloatArray srcType (Z.of_nat n);
  let delta := ((max - min) / (numSteps - 1))%float in
  let output :=
    for_range 0 n 1 (λ i output,
      <[i := toFloatElem k (add (Flt min) (mul (Flt delta) (toNumber (idx data i))))]> output)
      output in
  Ok (FloatArr k output).

(** The two nested [while] loops of [integerPackingSigned] and
    [integerPackingUnsigned], which differ in the test [cond] of the inner
    loop only. The loops are driven by fuel; [None] is fuel run out. *)
Fixpoint packInner (cond : option Num → bool) (data : list Z) (fuel : nat)
    (value : Num) (i : nat) (t : option Num) : option (Num * nat * option Num) :=
  if cond t then
    match fuel with
    | O => None
    | S fuel =>
        let value := plus (Some value) t in
        let i := S i in
        packInner cond data fuel value i (idx data i)
    end
  else Some (value, i, t).

Fixpoint packOuter (cond : option Num → bool) (data : list Z) (fuel : nat)
    (i j : nat) (output : list Z) : option (list Z) :=
  if (i <? length data)%nat then
    match fuel with
    | O => None
    | S fuel =>
        '(value, i, t) ← packInner cond data (length data) (Int 0) i (idx data i);
        let value := plus (Some value) t in
        let output := store Int32Array output j (Some value) in
        packOuter cond data fuel (S i) (S j) output
    end
  else Some output.

Definition integerPackingSigned (data : list Z) (byteCount srcSize : Z) : Result Arr :=
  let upperLimit := if byteCount =? 1 then 0x7F else 0x7FFF in
  let lowerLimit := - upperLimit - 1 in
  let n := length data in
  output ← newArray 0 srcSize;
  match packOuter (λ t, strictEqU t upperLimit || strictEqU t lowerLimit) data n 0 0 output with
  | Some output => Ok (IntArr Int32Array output)
  | None => Unmodelled
  end.

Definition integerPackingUnsigned (data : list Z) (byteCount srcSize : Z) : Result Arr :=
  let upperLimit := if byteCount =? 1 then 0xFF else 0xFFFF in
  let n := length data in
  output ← newArray 0 srcSize;
  match packOuter (λ t, strictEqU t upperLimit) data n 0 0 output with
  | Some output => Ok (IntArr Int32Array output)
  | None => Unmodelled
  end.

Definition integerPacking (data : list Z) (byteCount : Z) (isUnsigned : bool) (srcSize : Z)
  : Result Arr :=
  if isUnsigned then integerPackingUnsigned data byteCount srcSize
  else integerPackingSigned data byteCount srcSize.

(** *** Reinterpreting the bytes

    The reinterpretations receive a Uint8Array as the bytes [before] it
    in its buffer, its own bytes [data] and the bytes [after] it, so that
    [data.buffer] is [before ++ data ++ after] and [data.byteOffset] the
    length of [before]. The probe [isLittleEndian] of the host is a
    parameter of the decoder. *)

(** The value of a group of bytes read by a little-endian host. *)
Definition littleEndian (bytes : list Z) : Z := foldr (λ b acc, b + 256 * acc) 0 bytes.

(** The bit pattern [w] of an IEEE binary format with [mbits] bits of
    mantissa and [ebits] bits of exponent, as a binary64 value. *)
Definition floatOfBits (mbits ebits w : Z) : float :=
  let m := w mod 2 ^ mbits in
  let e := (w / 2 ^ mbits) mod 2 ^ ebits in
  let s := Z.testbit w (mbits + ebits) in
  let bias := 2 ^ (ebits - 1) - 1 in
  if (e =? 2 ^ ebits - 1)%Z then
    if (m =? 0)%Z then SF2Prim (S754_infinity s) else nan
  else
    match (if e =? 0 then m else m + 2 ^ mbits)%Z with
    | Z.pos p => SF2Prim (S754_finite s p (Z.max e 1 - bias - mbits))
    | _ => SF2Prim (S754_zero s)
    end.

Section Host.
Variable isLittleEndian : bool.

(** [new Int8Array(data.buffer, data.byteOffset)]: the bytes from the
    offset of [data] to the end of its buffer. *)
Definition int8 (before data after : list Z) : Arr :=
  IntArr Int8Array (wrapS 8 <$> (data ++ after)).

Definition flipByteOrder (data : list Z) (bytes : nat) : list Z :=
  let ret := replicate (length data) 0 in
  for_range 0 (length data) bytes (λ i ret,
    for_range 0 bytes 1 (λ j ret,
      store Uint8Array ret (i + bytes - j - 1) (idx data (i + j))) ret) ret.

(** [new c(buffer)] for a constructor of [byteSize]-byte elements: the
    words of the buffer in the byte order of the host, a RangeError
    when the byte length is not a multiple of the element size. *)
Definition words (byteSize : nat) (buffer : list Z) : Result (list Z) :=
  if (length buffer mod byteSize =? 0)%nat then
    Ok ((λ h, let group := take byteSize (drop (h * byteSize) buffer) in
              littleEndian (if isLittleEndian then group else reverse group))
        <$> seq 0 (length buffer / byteSize))
  else Throw RangeError.

(** [view]: a little-endian host reads the whole of [data.buffer], from
    its first byte, whatever the offset and the length of [data]; any other
    host reads the flipped copy of the bytes of [data] alone. *)
Definition view (before data after : list Z) (byteSize : nat) : Result (list Z) :=
  if isLittleEndian then words byteSize (before ++ data ++ after)
  else words byteSize (flipByteOrder data byteSize).

Definition int16 (before data after : list Z) : Result Arr :=
  w ← view before data after 2; Ok (IntArr Int16Array (wrapS 16 <$> w)).
Definition uint16 (before data after : list Z) : Result Arr :=
  w ← view before data after 2; Ok (IntArr Uint16Array w).
Definition int32 (before data after : list Z) : Result Arr :=
  w ← view before data after 4; Ok (IntArr Int32Array (wrapS 32 <$> w)).
Definition uint32 (before data after : list Z) : Result Arr :=
  w ← view before data after 4; Ok (IntArr Uint32Array w).
Definition float32 (before data after : list Z) : Result Arr :=
  w ← view before data after 4; Ok (FloatArr Float32Array (floatOfBits 23 8 <$> w)).
Definition float64 (before data after : list Z) : Result Arr :=
  w ← view before data after 8; Ok (FloatArr Float64Array (floatOfBits 52 11 <$> w)).

(** *** Strings *)

(** [str.substring(start, end)], either argument possibly undefined. *)
Definition substring (str : string) (start end_ : option Z) : string :=
  let len := Z.of_nat (String.length str) in
  let clamp z := Z.min (Z.max z 0) len in
  let finalStart := clamp (default 0 start) in
  let finalEnd := clamp (default len end_) in
  let from := Z.min finalStart finalEnd in
  let to := Z.max finalStart finalEnd in
  String.substring (Z.to_nat from) (Z.to_nat (to - from)) str.

(** The loop [for (let i of indices)] of [stringArray], on the rest of
    the indices. [offsets] may be undefined, which throws at its first
    read; [cache] is the memo object, keyed by the index. *)
Fixpoint stringArrayLoop (str : string) (offsets : option (list Z)) (indices : list Z)
    (cache : gmap Z string) (result : list Val) (offset : nat) : Result (list Val) :=
  match indices with
  | [] => Ok result
  | i :: indices =>
      if i <? 0 then
        stringArrayLoop str offsets indices cache (<[offset := VNull]> result) (S offset)
      else
        match cache !! i with
        | Some v =>
            stringArrayLoop str offsets indices cache
              (<[offset := VString v]> result) (S offset)
        | None =>
            match offsets with
            | None => Throw TypeError
            | Some o =>
                let v := substring str (o !! Z.to_nat i) (o !! Z.to_nat (i + 1)) in
                stringArrayLoop str offsets indices (<[i := v]> cache)
                  (<[offset := VString v]> result) (S offset)
            end
        end
  end.

Definition stringArray (decode : list Encoding → option Arr → Result (option Arr))
    (data : option Arr) (dataEncoding : list Encoding) (stringData : string)
    (offsetEncoding : list Encoding) (offsets : Arr) : Result Arr :=
  let str := stringData in
  offsets ← decode offsetEncoding (Some offsets);
  indices ← decode dataEncoding data;
  match indices with
  | None => Throw TypeError
  | Some (IntArr _ indices) | Some (Uint8View _ indices _) =>
      let result := replicate (length indices) VUndefined in
      match offsets with
      | None => Array <$$> stringArrayLoop str None indices ∅ result 0
      | Some (IntArr _ offsets) | Some (Uint8View _ offsets _) =>
          Array <$$> stringArrayLoop str (Some offsets) indices ∅ result 0
      | Some _ => Unmodelled
      end
  | Some _ => Unmodelled
  end.

(** *** The pipeline *)

(** A transform declared on an integer typed array, applied to whatever
    the previous step produced: a TypeError on [undefined] (the read of
    [data.length]). *)
Definition onInts (data : option Arr) (f : list Z → Result Arr) : Result (option Arr) :=
  match data with
  | None => Throw TypeError
  | Some (IntArr _ data) | Some (Uint8View _ data _) => Some <$$> f data
  | Some _ => Unmodelled
  end.

(** The reinterpretations of [case 'ByteArray'], declared on a
    Uint8Array: one that spans its buffer has nothing before or after it. *)
Definition onBytes (data : option Arr) (f : list Z → list Z → list Z → Result Arr)
  : Result (option Arr) :=
  match data with
  | None => Throw TypeError
  | Some (IntArr Uint8Array data) => Some <$$> f [] data []
  | Some (Uint8View before data after) => Some <$$> f before data after
  | Some _ => Unmodelled
  end.

Fixpoint decodeStep (data : option Arr) (encoding : Encoding) {struct encoding}
  : Result (option Arr) :=
  match encoding with
  | ByteArray type =>
      match type with
      | 4 (* Uint8 *) => Ok data
      | 1 (* Int8 *) => onBytes data (λ before data after, Ok (int8 before data after))
      | 2 (* Int16 *) => onBytes data int16
      | 5 (* Uint16 *) => onBytes data uint16
      | 3 (* Int32 *) => onBytes data int32
      | 6 (* Uint32 *) => onBytes data uint32
      | 32 (* Float32 *) => onBytes data float32
      | 33 (* Float64 *) => onBytes data float64
      | _ => Throw (Error "Unsupported ByteArray type.")
      end
  | FixedPoint factor srcType => onInts data (λ data, fixedPoint data factor srcType)
  | IntervalQuantization min max numSteps srcType =>
      onInts data (λ data, intervalQuantization data min max numSteps srcType)
  | RunLength srcType srcSize =>
      match data with
      | None => _ ← getIntArray srcType srcSize; Throw TypeError
      | _ => onInts data (λ data, runLength data srcType srcSize)
      end
  | Delta origin srcType => onInts data (λ data, delta data origin srcType)
  | IntegerPacking byteCount isUnsigned srcSize =>
      onInts data (λ data, integerPacking data byteCount isUnsigned srcSize)
  | StringArray dataEncoding stringData offsetEncoding offsets =>
      Some <$$> (stringArray
        (fix decode (encoding : list Encoding) (current : option Arr) :=
           match encoding with
           | [] => Ok current
           | e :: encoding => current ← decode encoding current; decodeStep current e
           end)
        data dataEncoding stringData offsetEncoding offsets)
  | OtherKind _ => Ok None
  end.

(** [decode]: the steps are applied from the last encoding to the first. *)
Fixpoint decodeFrom (encoding : list Encoding) (current : option Arr)
  : Result (option Arr) :=
  match encoding with
  | [] => Ok current
  | e :: encoding => current ← decodeFrom encoding current; decodeStep current e
  end.

Definition decode (data : EncodedData.t) : Result (option Arr) :=
  let current := data.(EncodedData.data) in
  decodeFrom data.(EncodedData.encoding) current.

End Host.

End Decoder.

(** ** The column view *)

(** Modelled from the spec: the enum [CIFTools.ValuePresence] is declared
    outside these files. Section 3 (Presence values) and the comment on
    [EncodedColumn.mask] give 0 = Present, 1 = NotSpecified, 2 = Unknown. *)
Module ValuePresence.
Definition Present : Z := 0.
Definition NotSpecified : Z := 1.
Definition Unknown : Z := 2.
End ValuePresence.

(** [a[row]] on an array-like object; out of range reads [undefined]. *)
Definition at_row (a : Arr) (row : nat) : Val :=
  match a with
  | IntArr _ elems | Uint8View _ elems _ =>
      from_option (λ z, VNum (Int z)) VUndefined (elems !! row)
  | FloatArr _ elems => from_option (λ f, VNum (Flt f)) VUndefined (elems !! row)
  | Array elems => default VUndefined (elems !! row)
  end.

(** [a === b] on row values. *)
Definition Val_strictEq (a b : Val) : bool :=
  match a, b with
  | VUndefined, VUndefined => true
  | VNull, VNull => true
  | VNum x, VNum y => strictEq x y
  | VString s, VString t => String.eqb s t
  | _, _ => false
  end.

(** [mask[row] === ValuePresence.Present] *)
Definition isPresent (v : Val) : bool := Val_strictEq v (VNum (Int ValuePresence.Present)).

(** The four column classes. *)
Inductive MaterializedColumn :=
| NumericColumn (data : Arr)
| MaskedNumericColumn (data : Arr) (mask : Arr)
| StringColumn (data : Arr)
| MaskedStringColumn (data : Arr) (mask : Arr).

(** [CIFTools.Column] as [wrapColumn] and [getColumn] return it: one of the
    four classes, or the sentinel [CIFTools.UndefinedColumn]. *)
Inductive Column :=
| Materialized (c : MaterializedColumn)
| UndefinedColumn.

(** Modelled from the spec: the object [CIFTools.UndefinedColumn] is
    declared outside these files. Section 4.4: [isDefined = false] and every
    getter returns a neutral default (empty string/null, 0, Present); the
    string getter is taken to return null. *)
Module UndefinedColumnSpec.
Definition isDefined : bool := false.
Definition getString (row : nat) : Val := VNull.
Definition getInteger (row : nat) : Val := VNum (Int 0).
Definition getFloat (row : nat) : Val := VNum (Int 0).
Definition getValuePresence (row : nat) : Val := VNum (Int ValuePresence.Present).
End UndefinedColumnSpec.

(** [`${v}`], with Number::toString as a parameter. *)
Definition template (numberToString : Num → string) (v : Val) : string :=
  match v with
  | VUndefined => "undefined"
  | VNull => "null"
  | VNum n => numberToString n
  | VString s => s
  end.

(** [v | 0] on a row value; a string operand (ToNumber of a string) is
    outside the model. *)
Definition or0 (v : Val) : Result Val :=
  match v with
  | VNum n => Ok (VNum (Int (toInt32 n)))
  | VUndefined | VNull => Ok (VNum (Int 0))
  | VString _ => Unmodelled
  end.

(** [fastParseInt(v, 0, v.length)]: the read of [v.length] throws on null
    and undefined; a number has no [length] and is outside the model.
    [CIFTools.Utils.FastNumberParsers.parseInt] is declared outside these
    files and is a parameter. *)
Definition parseIntOf (fastParseInt : string → Z → Z → Num) (v : Val) : Result Val :=
  match v with
  | VString s => Ok (VNum (fastParseInt s 0 (Z.of_nat (String.length s))))
  | VUndefined | VNull => Throw TypeError
  | VNum _ => Unmodelled
  end.

(** [v || ''] on a row value. *)
Definition orEmpty (v : Val) : Val :=
  match v with
  | VUndefined | VNull => VString ""
  | VString s => VString s
  | VNum n => if strictEq n (Int 0) || PrimFloat.is_nan (toFloat n) then VString "" else VNum n
  end.

Module NumericColumn.
Section Methods.
Variable numberToString : Num → string.
Variable data : Arr.
Definition isDefined : bool := true.
Definition getString (row : nat) : Val := VString (template numberToString (at_row data row)).
Definition getInteger (row : nat) : Result Val := or0 (at_row data row).
Definition areValuesEqual (rowA rowB : nat) : bool :=
  Val_strictEq (at_row data rowA) (at_row data rowB).
Definition getValuePresence (row : nat) : Val := VNum (Int ValuePresence.Present).
End Methods.
End NumericColumn.

Module MaskedNumericColumn.
Section Methods.
Variable numberToString : Num → string.
Variables data mask : Arr.
Definition isDefined : bool := true.
Definition getString (row : nat) : Val :=
  if isPresent (at_row mask row) then VString (template numberToString (at_row data row))
  else VNull.
Definition getInteger (row : nat) : Result Val :=
  if isPresent (at_row mask row) then Ok (at_row data row) else Ok (VNum (Int 0)).
Definition areValuesEqual (rowA rowB : nat) : bool :=
  Val_strictEq (at_row data rowA) (at_row data rowB).
Definition getValuePresence (row : nat) : Val := at_row mask row.
End Methods.
End MaskedNumericColumn.

Module StringColumn.
Section Methods.
Variable fastParseInt : string → Z → Z → Num.
Variable data : Arr.
Definition isDefined : bool := true.
Definition getString (row : nat) : Val := at_row data row.
Definition getInteger (row : nat) : Result Val :=
  let v := at_row data row in parseIntOf fastParseInt v.
Definition areValuesEqual (rowA rowB : nat) : bool :=
  Val_strictEq (at_row data rowA) (at_row data rowB).
Definition getValuePresence (row : nat) : Val := VNum (Int ValuePresence.Present).
End Methods.
End StringColumn.

Module MaskedStringColumn.
Section Methods.
Variable fastParseInt : string → Z → Z → Num.
Variables data mask : Arr.
Definition isDefined : bool := true.
Definition getString (row : nat) : Val :=
  if isPresent (at_row mask row) then at_row data row else VNull.
Definition getInteger (row : nat) : Result Val :=
  if negb (isPresent (at_row mask row)) then Ok (VNum (Int 0))
  else let v := at_row data row in parseIntOf fastParseInt (orEmpty v).
Definition areValuesEqual (rowA rowB : nat) : bool :=
  Val_strictEq (at_row data rowA) (at_row data rowB).
Definition getValuePresence (row : nat) : Val := at_row mask row.
End Methods.
End MaskedStringColumn.

(** The interface [Column] over the four classes. *)
Section Column.
Variable numberToString : Num → string.
Variable fastParseInt : string → Z → Z → Num.

Definition isDefined (c : Column) : bool :=
  match c with
  | Materialized (NumericColumn _) => NumericColumn.isDefined
  | Materialized (MaskedNumericColumn _ _) => MaskedNumericColumn.isDefined
  | Materialized (StringColumn _) => StringColumn.isDefined
  | Materialized (MaskedStringColumn _ _) => MaskedStringColumn.isDefined
  | UndefinedColumn => UndefinedColumnSpec.isDefined
  end.

Definition getString (c : MaterializedColumn) (row : nat) : Val :=
  match c with
  | NumericColumn data => NumericColumn.getString numberToString data row
  | MaskedNumericColumn data mask => MaskedNumericColumn.getString numberToString data mask row
  | StringColumn data => StringColumn.getString data row
  | MaskedStringColumn data mask => MaskedStringColumn.getString data mask row
  end.

Definition getInteger (c : MaterializedColumn) (row : nat) : Result Val :=
  match c with
  | NumericColumn data => NumericColumn.getInteger data row
  | MaskedNumericColumn data mask => MaskedNumericColumn.getInteger data mask row
  | StringColumn data => StringColumn.getInteger fastParseInt data row
  | MaskedStringColumn data mask => MaskedStringColumn.getInteger fastParseInt data mask row
  end.

Definition areValuesEqual (c : MaterializedColumn) (rowA rowB : nat) : bool :=
  match c with
  | NumericColumn data => NumericColumn.areValuesEqual data rowA rowB
  | MaskedNumericColumn data _ => MaskedNumericColumn.areValuesEqual data rowA rowB
  | StringColumn data => StringColumn.areValuesEqual data rowA rowB
  | MaskedStringColumn data _ => MaskedStringColumn.areValuesEqual data rowA rowB
  end.

Definition getValuePresence (c : MaterializedColumn) (row : nat) : Val :=
  match c with
  | NumericColumn _ => NumericColumn.getValuePresence row
  | MaskedNumericColumn _ mask => MaskedNumericColumn.getValuePresence mask row
  | StringColumn _ => StringColumn.getValuePresence row
  | MaskedStringColumn _ mask => MaskedStringColumn.getValuePresence mask row
  end.

End Column.

(** [data.buffer && data.byteLength && data.BYTES_PER_ELEMENT]: a typed
    array that is not empty. *)
Definition isNumericData (data : Arr) : bool :=
  match data with
  | IntArr _ elems | Uint8View _ elems _ => negb (length elems =? 0)%nat
  | FloatArr _ elems => negb (length elems =? 0)%nat
  | Array _ => false
  end.

Definition wrapColumn (isLittleEndian : bool) (column : EncodedColumn.t) : Result Column :=
  match column.(EncodedColumn.data).(EncodedData.data) with
  | None => Ok UndefinedColumn
  | Some _ =>
      data ← Decoder.decode isLittleEndian column.(EncodedColumn.data);
      mask ← match column.(EncodedColumn.mask) with
             | Some mask => Decoder.decode isLittleEndian mask
             | None => Ok None
             end;
      match data with
      | None => Throw TypeError
      | Some data =>
          if isNumericData data then
            Ok (Materialized match mask with
                             | Some mask => MaskedNumericColumn data mask
                             | None => NumericColumn data
                             end)
          else
            Ok (Materialized match mask with
                             | Some mask => MaskedStringColumn data mask
                             | None => StringColumn data
                             end)
      end
  end.

Module Category.

Record t := {
  encodedColumns : gmap string EncodedColumn.t;
  columnNameList : list string;
  name : string;
  columnCount : nat;
  rowCount : Z
}.

Definition columnNames (this : t) : list string := this.(columnNameList).

Definition getColumn (isLittleEndian : bool) (this : t) (name : string) : Result Column :=
  match this.(encodedColumns) !! name with
  | Some w => wrapColumn isLittleEndian w
  | None => Ok UndefinedColumn
  end.

(** [constructor(data: EncodedCategory)] *)
Definition new (data : EncodedCategory.t) : t :=
  let '(encodedColumns, columnNameList) :=
    foldl (λ '(encodedColumns, columnNameList) c,
             (<[c.(EncodedColumn.name) := c]> encodedColumns,
              columnNameList ++ [c.(EncodedColumn.name)]))
          (∅, []) data.(EncodedCategory.columns) in
  {| name := data.(EncodedCategory.name);
     columnCount := length data.(EncodedCategory.columns);
     rowCount := data.(EncodedCategory.rowCount);
     columnNameList := columnNameList;
     encodedColumns := encodedColumns |}.

End Category.

(** ** The column view: JSON projections, [DataBlock] and [File] *)

(** [array.map(f)] with a callback that may throw: the elements are
    visited in order and the first exception ends the call. *)
Fixpoint Result_mapM {A B} (f : A → Result B) (l : list A) : Result (list B) :=
  match l with
  | [] => Ok []
  | x :: l => y ← f x; ys ← Result_mapM f l; Ok (y :: ys)
  end.

(** [a[i] = v] on a plain Array, whose slots are [None] where it has a
    hole: a store at or past the end extends the array. *)
Definition array_set {A} (a : list (option A)) (i : nat) (v : A) : list (option A) :=
  if (i <? length a)%nat then <[i := Some v]> a
  else a ++ replicate (i - length a) None ++ [Some v].

(** The two accessors that [toJSON] calls on what [getColumn] returned;
    on the sentinel they are those of [UndefinedColumnSpec]. *)
Definition Column_getValuePresence (c : Column) (row : nat) : Val :=
  match c with
  | Materialized c => getValuePresence c row
  | UndefinedColumn => UndefinedColumnSpec.getValuePresence row
  end.

Definition Column_getString (numberToString : Num → string) (c : Column) (row : nat) : Val :=
  match c with
  | Materialized c => getString numberToString c row
  | UndefinedColumn => UndefinedColumnSpec.getString row
  end.

(** A plain object made by [{}], as far as assignments to its properties
    go: its own properties, and whether it still inherits from
    [Object.prototype]. [assign o key v] is [o[key] = v]: it stores an own
    property, except for the key "__proto__" of an object that inherits from
    [Object.prototype], where the assignment calls the inherited setter,
    which stores nothing, removes the prototype when the value is null and
    ignores every other value that is not an object. No other property of
    [Object.prototype] has a setter or is read-only. *)
Module Obj.
Record t := {
  own : gmap string Val;
  inherits : bool
}.
Definition empty : t := {| own := ∅; inherits := true |}.
Definition assign (o : t) (key : string) (v : Val) : t :=
  if bool_decide (key = "__proto__") && o.(inherits) then
    match v with
    | VNull => {| own := o.(own); inherits := false |}
    | _ => o
    end
  else {| own := <[key := v]> o.(own); inherits := o.(inherits) |}.
End Obj.

(** The object that [Category.toJSON] returns; a row is the object
    [item], from the column names to the cells. *)
Module CategoryJSON.
Record t := {
  name : string;
  columns : list string;
  rows : list (option Obj.t)
}.
End CategoryJSON.

Section toJSON.
Variable numberToString : Num → string.
Variable isLittleEndian : bool.

(** The body of [for (let c of columns)]. *)
Definition setCell (i : nat) (item : Obj.t) (c : string * Column) : Obj.t :=
  let d := Column_getValuePresence c.2 i in
  if Val_strictEq d (VNum (Int ValuePresence.Present))
  then Obj.assign item c.1 (Column_getString numberToString c.2 i)
  else if Val_strictEq d (VNum (Int ValuePresence.NotSpecified))
  then Obj.assign item c.1 (VString ".")
  else Obj.assign item c.1 (VString "?").

(** [Category.toJSON] *)
Definition Category_toJSON (this : Category.t) : Result CategoryJSON.t :=
  let rows := [] in
  columns ← Result_mapM (λ name, column ← Category.getColumn isLittleEndian this name;
                                  Ok (name, column))
                        this.(Category.columnNameList);
  let rows :=
    for_range 0 (Z.to_nat this.(Category.rowCount)) 1 (λ i rows,
      let item := Obj.empty in
      let item := foldl (setCell i) item columns in
      array_set rows i item) rows in
  Ok {| CategoryJSON.name := this.(Category.name);
        CategoryJSON.columns := Category.columnNames this;
        CategoryJSON.rows := rows |}.

End toJSON.

(** [interface EncodedDataBlock] and [interface EncodedFile] of
    [Binary/Encoding.ts]. *)
Module EncodedDataBlock.
Record t := {
  header : string;
  categories : list EncodedCategory.t
}.
End EncodedDataBlock.

Module EncodedFile.
Record t := {
  version : string;
  encoder : string;
  dataBlocks : list EncodedDataBlock.t
}.
End EncodedFile.

(** The object that [DataBlock.toJSON] returns. *)
Module DataBlockJSON.
Record t := {
  id : string;
  categories : list CategoryJSON.t;
  additionalData : gmap string Val
}.
End DataBlockJSON.

Module DataBlock.

(** [additionalData] is an object that the class only creates (empty)
    and hands to [toJSON]. *)
Record t := {
  categoryMap : gmap string Category.t;
  categoryList : list Category.t;
  header : string;
  additionalData : gmap string Val
}.

Definition categories (this : t) : list Category.t := this.(categoryList).

(** [Map.get] returns [undefined] ([None]) for a name that was not set. *)
Definition getCategory (this : t) (name : string) : option Category.t :=
  this.(categoryMap) !! name.

Definition toJSON (numberToString : Num → string) (isLittleEndian : bool) (this : t)
  : Result DataBlockJSON.t :=
  categories ← Result_mapM (Category_toJSON numberToString isLittleEndian) this.(categoryList);
  Ok {| DataBlockJSON.id := this.(header);
        DataBlockJSON.categories := categories;
        DataBlockJSON.additionalData := this.(additionalData) |}.

(** [constructor(data: EncodedDataBlock)] *)
Definition new (data : EncodedDataBlock.t) : t :=
  let categoryList := Category.new <$> data.(EncodedDataBlock.categories) in
  {| header := data.(EncodedDataBlock.header);
     additionalData := ∅;
     categoryList := categoryList;
     categoryMap := foldl (λ categoryMap c, <[c.(Category.name) := c]> categoryMap)
                          ∅ categoryList |}.

End DataBlock.

Module File.

Record t := { dataBlocks : list DataBlock.t }.

Definition toJSON (numberToString : Num → string) (isLittleEndian : bool) (this : t)
  : Result (list DataBlockJSON.t) :=
  Result_mapM (DataBlock.toJSON numberToString isLittleEndian) this.(dataBlocks).

(** [constructor(data: EncodedFile)] *)
Definition new (data : EncodedFile.t) : t :=
  {| dataBlocks := DataBlock.new <$> data.(EncodedFile.dataBlocks) |}.

End File.

(** ** The transforms in the words of the specification *)

(** RunLength: emit [value] repeated [length] times for each pair. *)
Fixpoint emitted (pairs : list Z) : list Z :=
  match pairs with
  | value :: length :: pairs => replicate (Z.to_nat length) value ++ emitted pairs
  | _ => []
  end.

(** Delta: each output is the input plus the previous output, the first
    one the input plus [prev]; every output is stored in the array kind [k]. *)
Fixpoint sums (k : IntKind) (prev : Z) (data : list Z) : list Z :=
  match data with
  | [] => []
  | x :: data => let y := toElem k (Int (x + prev)) in y :: sums k y data
  end.

(** IntegerPacking: walk the tokens left to right; a continuation token
    is added to the running sum [acc]; any other token is added, the sum
    emitted and the accumulator reset. The signed mode continues on the
    tokens [upper] and [lower], the unsigned mode on [upper] only. *)
Fixpoint walk (continues : Z → bool) (acc : Z) (tokens : list Z) : list Z :=
  match tokens with
  | [] => []
  | t :: tokens =>
      if continues t then walk continues (acc + t) tokens
      else (acc + t) :: walk continues 0 tokens
  end.

Definition unpack (upper lower : Z) : Z → list Z → list Z :=
  walk (λ t, (t =? upper) || (t =? lower)).

Definition unpackUnsigned (upper : Z) : Z → list Z → list Z :=
  walk (λ t, t =? upper).

(** The kinds the switch of [decodeStep] has a case for. *)
Definition knownKinds : list string :=
  ["ByteArray"; "FixedPoint"; "IntervalQuantization"; "RunLength"; "Delta";
   "IntegerPacking"; "StringArray"].

(** A stored row value that is NaN. *)
Definition Val_isNaN (v : Val) : bool :=
  match v with
  | VNum (Flt f) => PrimFloat.is_nan f
  | _ => false
  end.

(** The decoded values a column holds. *)
Definition dataOf (c : MaterializedColumn) : Arr :=
  match c with
  | NumericColumn data | MaskedNumericColumn data _
  | StringColumn data | MaskedStringColumn data _ => data
  end.

(** One turn of the loop of the constructor of [Category], on the map. *)
Definition register (encodedColumns : gmap string EncodedColumn.t) (c : EncodedColumn.t)
  : gmap string EncodedColumn.t :=
  <[c.(EncodedColumn.name) := c]> encodedColumns.

(** Modelled from the spec: [CIFTools.Utils.FastNumberParsers.parseInt] is
    declared outside these files. Section 4.5: base-10 integer parsing of
    the slice [start, end) of the string, 0 for an empty or unparsable
    slice. It stands for the parser parameter in the examples only. *)
Fixpoint parseDigits (acc : Z) (s : string) : option Z :=
  match s with
  | EmptyString => Some acc
  | String c s =>
      let d := Z.of_N (Ascii.N_of_ascii c) - 48 in
      if (0 <=? d) && (d <=? 9) then parseDigits (10 * acc + d) s else None
  end.

Definition specParseInt (s : string) (start end_ : Z) : Num :=
  let slice := String.substring (Z.to_nat start) (Z.to_nat (end_ - start)) s in
  Int match slice with
      | String c digits =>
          if Ascii.eqb c (Ascii.ascii_of_nat 45)
          then default 0 (Z.opp <$> parseDigits 0 digits)
          else default 0 (parseDigits 0 slice)
      | EmptyString => 0
      end.

(** ** Notions used by the properties of the whole decoder *)

(** The values an element of an integer typed array can hold. *)
Definition inRange (k : IntKind) (z : Z) : bool :=
  match k with
  | Int8Array => (-0x80 <=? z) && (z <? 0x80)
  | Int16Array => (-0x8000 <=? z) && (z <? 0x8000)
  | Int32Array => (-0x80000000 <=? z) && (z <? 0x80000000)
  | Uint8Array => (0 <=? z) && (z <? 0x100)
  | Uint16Array => (0 <=? z) && (z <? 0x10000)
  | Uint32Array => (0 <=? z) && (z <? 0x100000000)
  end.

(** The elements of a Uint8Array. *)
Definition isByte (z : Z) : bool := inRange Uint8Array z.

(** An array-like object whose elements its type can hold and which, if
    it is a Uint8Array, spans its buffer. *)
Definition wellFormed (a : Arr) : bool :=
  match a with
  | IntArr k elems => forallb (inRange k) elems
  | FloatArr _ _ | Array _ => true
  | Uint8View [] elems [] => forallb isByte elems
  | Uint8View _ _ _ => false
  end.

(** What a step of the pipeline receives: [undefined], or such an object. *)
Definition wellFormedU (data : option Arr) : bool := from_option wellFormed true data.

(** The Uint8Arrays that a descriptor carries hold bytes and span their
    buffers. *)
Fixpoint bytesOK (encoding : Encoding) : bool :=
  match encoding with
  | StringArray dataEncoding _ offsetEncoding offsets =>
      forallb bytesOK dataEncoding && forallb bytesOK offsetEncoding && wellFormed offsets
  | _ => true
  end.

(** The Uint8Array of an encoded data record, and those of its
    descriptors, hold bytes and span their buffers; likewise for a column. *)
Definition bytesOfData (data : EncodedData.t) : bool :=
  forallb bytesOK data.(EncodedData.encoding) && wellFormedU data.(EncodedData.data).

Definition bytesOfColumn (column : EncodedColumn.t) : bool :=
  bytesOfData column.(EncodedColumn.data)
  && from_option bytesOfData true column.(EncodedColumn.mask).

(** The array kind that a stored data-type code selects in [getIntArray]
    and [getFloatArray], if any. *)
Definition intKindOf (type : Z) : option IntKind :=
  match type with
  | 1 => Some Int8Array
  | 2 => Some Int16Array
  | 3 => Some Int32Array
  | 4 => Some Uint8Array
  | 5 => Some Uint16Array
  | 6 => Some Uint32Array
  | _ => None
  end.

Definition floatKindOf (type : Z) : option FloatKind :=
  match type with
  | 32 => Some Float32Array
  | 33 => Some Float64Array
  | _ => None
  end.

(** [BYTES_PER_ELEMENT] of the typed array that a data-type code selects
    in [case 'ByteArray']. *)
Definition elementSize (type : Z) : option nat :=
  match type with
  | 1 | 4 => Some 1%nat
  | 2 | 5 => Some 2%nat
  | 3 | 6 | 32 => Some 4%nat
  | 33 => Some 8%nat
  | _ => None
  end.

(** [a.length] *)
Definition Arr_length (a : Arr) : nat :=
  match a with
  | IntArr _ elems | Uint8View _ elems _ => length elems
  | FloatArr _ elems => length elems
  | Array elems => length elems
  end.

(** The elements of an integer typed array, and nothing for any other
    array. *)
Definition intElements (a : Arr) : option (list Z) :=
  match a with
  | IntArr _ elems | Uint8View _ elems _ => Some elems
  | FloatArr _ _ | Array _ => None
  end.

(** The number of bytes that a reinterpretation of [case 'ByteArray']
    reads for a Uint8Array with [before] bytes of its buffer in front of
    it, [data] bytes of its own and [after] bytes behind it: the array
    itself for Uint8, from its offset to the end of the buffer for Int8, and
    for the wider types the whole buffer on a little-endian host and the
    array alone on any other. *)
Definition bytesRead (isLittleEndian : bool) (type : Z) (before data after : nat) : nat :=
  if type =? 4 then data
  else if type =? 1 then (data + after)%nat
  else if isLittleEndian then (before + data + after)%nat
  else data.

(** The test of the inner loop of [integerPacking], on a token. *)
Definition isContinuation (byteCount : Z) (isUnsigned : bool) (t : Z) : bool :=
  if isUnsigned then t =? (if byteCount =? 1 then 0xFF else 0xFFFF)
  else let upper := if byteCount =? 1 then 0x7F else 0x7FFF in (t =? upper) || (t =? - upper - 1).

(** The row that [stringArray] computes for the index [i], without the memo. *)
Definition entry (str : string) (offsets : list Z) (i : Z) : Val :=
  if i <? 0 then VNull
  else VString (Decoder.substring str (offsets !! Z.to_nat i) (offsets !! Z.to_nat (i + 1))).

(** The layout that the comment on [Encoding.StringArray] describes: the
    strings concatenated, and the offsets 0 and the ends of the strings. *)
Definition pool (strings : list string) : string := foldr String.append "" strings.

Fixpoint offsetsFrom (start : Z) (strings : list string) : list Z :=
  start ::
  match strings with
  | [] => []
  | s :: strings => offsetsFrom (start + Z.of_nat (String.length s)) strings
  end.

(** The cell that [toJSON] stores for a column at a row. *)
Definition cell (numberToString : Num → string) (column : Column) (i : nat) : Val :=
  let d := Column_getValuePresence column i in
  if Val_strictEq d (VNum (Int ValuePresence.Present))
  then Column_getString numberToString column i
  else if Val_strictEq d (VNum (Int ValuePresence.NotSpecified)) then VString "."
  else VString "?".

(** The encoded columns and categories of the examples below. *)

(** A string column whose only row is the absent string (index -1) and
    whose mask marks that row Present. *)
Definition nullPresentColumn : EncodedColumn.t :=
  {| EncodedColumn.name := "label";
     EncodedColumn.data :=
       {| EncodedData.encoding :=
            [StringArray [ByteArray 1] "foo" [ByteArray 4] (IntArr Uint8Array [0; 3])];
          EncodedData.data := Some (IntArr Uint8Array [255]) |};
     EncodedColumn.mask :=
       Some {| EncodedData.encoding := [ByteArray 4];
               EncodedData.data := Some (IntArr Uint8Array [0]) |} |}.

(** A Uint32 column holding 4294967295. *)
Definition uint32Column : EncodedColumn.t :=
  {| EncodedColumn.name := "id";
     EncodedColumn.data :=
       {| EncodedData.encoding := [ByteArray 6];
          EncodedData.data := Some (IntArr Uint8Array [255; 255; 255; 255]) |};
     EncodedColumn.mask := None |}.

(** A Float64 column whose bytes are a NaN. *)
Definition nanColumn : EncodedColumn.t :=
  {| EncodedColumn.name := "b";
     EncodedColumn.data :=
       {| EncodedData.encoding := [ByteArray 33];
          EncodedData.data := Some (IntArr Uint8Array [0; 0; 0; 0; 0; 0; 0xF8; 0x7F]) |};
     EncodedColumn.mask := None |}.

(** A fixed-point column with the least positive factor and a zero. *)
Definition tinyFactorColumn : EncodedColumn.t :=
  {| EncodedColumn.name := "x";
     EncodedColumn.data :=
       {| EncodedData.encoding := [FixedPoint 0x1p-1074 33; ByteArray 3];
          EncodedData.data := Some (IntArr Uint8Array [0; 0; 0; 0]) |};
     EncodedColumn.mask := None |}.

(** A Float64 column that holds 1.5, with a mask that marks the row
    Present. *)
Definition maskedFloatColumn : EncodedColumn.t :=
  {| EncodedColumn.name := "occupancy";
     EncodedColumn.data :=
       {| EncodedData.encoding := [ByteArray 33];
          EncodedData.data := Some (IntArr Uint8Array [0; 0; 0; 0; 0; 0; 0xF8; 0x3F]) |};
     EncodedColumn.mask :=
       Some {| EncodedData.encoding := [ByteArray 4];
               EncodedData.data := Some (IntArr Uint8Array [0]) |} |}.

(** A column that is declared but carries no byte buffer. *)
Definition emptyColumn : EncodedColumn.t :=
  {| EncodedColumn.name := "a";
     EncodedColumn.data := {| EncodedData.encoding := [ByteArray 4]; EncodedData.data := None |};
     EncodedColumn.mask := None |}.

Definition sampleCategory : EncodedCategory.t :=
  {| EncodedCategory.name := "atom_site";
     EncodedCategory.rowCount := 1;
     EncodedCategory.columns := [emptyColumn; uint32Column] |}.

(** * Properties *)

(** A closed instance of the decoder is settled by running it. *)
Ltac evaluate := vm_compute; reflexivity.

(** ** Scenarios of the specification, run on the embedding *)

Example runLength_scenario :
  Decoder.runLength [7; 3; 2; 2] 3 5 = Ok (IntArr Int32Array [7; 7; 7; 2; 2]).
Proof. reflexivity. Qed.

Example integerPacking_dangling :
  Decoder.integerPacking [1; 127] 1 false 2 = Ok (IntArr Int32Array [1; 0]).
Proof. reflexivity. Qed.

Example integerPacking_unsigned :
  Decoder.integerPacking [255; 255; 1; 7] 1 true 2 = Ok (IntArr Int32Array [511; 7]).
Proof. reflexivity. Qed.

Example fixedPoint_scenario :
  Decoder.fixedPoint [1500; 2500; 3140] 1000 32
  = Ok (FloatArr Float32Array [1.5; 2.5; 0x1.91eb86p+1]%float).
Proof. evaluate. Qed.

Example intervalQuantization_scenario :
  Decoder.intervalQuantization [0; 2; 4] 0 1 5 33
  = Ok (FloatArr Float64Array [0; 0.5; 1]%float).
Proof. evaluate. Qed.

Example stringArray_scenario :
  Decoder.decode true
    {| EncodedData.encoding :=
         [StringArray [ByteArray 1] "foobar" [ByteArray 4] (IntArr Uint8Array [0; 3; 6])];
       EncodedData.data := Some (IntArr Uint8Array [0; 1; 0; 255; 1]) |}
  = Ok (Some (Array [VString "foo"; VString "bar"; VString "foo"; VNull; VString "bar"])).
Proof. evaluate. Qed.

Example endianness_scenario (host : bool) :
  Decoder.decode host
    {| EncodedData.encoding := [ByteArray 2];
       EncodedData.data := Some (IntArr Uint8Array [0x34; 0x12; 0xFF; 0xFF]) |}
  = Ok (Some (IntArr Int16Array [0x1234; -1])).
Proof. destruct host; reflexivity. Qed.

Example float64_bytes :
  Decoder.decode false
    {| EncodedData.encoding := [ByteArray 33];
       EncodedData.data :=
         Some (IntArr Uint8Array
                 [0; 0; 0; 0; 0; 0; 0xF8; 0x3F; 0; 0; 0; 0; 0; 0; 0xF8; 0x7F]) |}
  = Ok (Some (FloatArr Float64Array [1.5; nan]%float)).
Proof. evaluate. Qed.

Example odd_byte_length :
  Decoder.decode true
    {| EncodedData.encoding := [ByteArray 2];
       EncodedData.data := Some (IntArr Uint8Array [1; 2; 3]) |}
  = Throw RangeError.
Proof. reflexivity. Qed.

Example unsupported_type :
  Decoder.decode true
    {| EncodedData.encoding := [ByteArray 99];
       EncodedData.data := Some (IntArr Uint8Array [1]) |}
  = Throw (Error "Unsupported ByteArray type.").
Proof. reflexivity. Qed.

Example truncate_toward_zero :
  truncate 1.5 = 1 ∧ truncate (-1.5) = -1 ∧ truncate nan = 0 ∧ toInt32 (Flt 3e9) = -1294967296.
Proof. vm_compute. done. Qed.

Example specParseInt_examples :
  specParseInt "42" 0 2 = Int 42 ∧ specParseInt "-7" 0 2 = Int (-7)
  ∧ specParseInt "" 0 0 = Int 0 ∧ specParseInt "x1" 0 2 = Int 0.
Proof. vm_compute. done. Qed.

(** ** Writes into a zero-filled array

    Every decoder fills its output from index 0 upwards, one element per
    store. [resize n d w] is the array of length [n] after the values [w]
    were stored in order: the stores past the end were ignored, the
    elements not yet reached still hold [d]. *)

Section ArrayWrites.
Context {A : Type}.
Implicit Types (w : list A) (d v : A) (n : nat).

Lemma insert_resize_snoc n d v w :
  <[length w := v]> (resize n d w) = resize n d (w ++ [v]).
Proof.
  destruct (decide (n ≤ length w)%nat) as [Hle|Hgt].
  - rewrite resize_app_le by done. rewrite list_insert_ge; [done|].
    by rewrite length_resize.
  - rewrite resize_ge by lia. rewrite (resize_ge (w ++ [v])) by (rewrite length_app; simpl; lia).
    rewrite <-(Nat.add_0_r (length w)) at 1. rewrite insert_app_r.
    rewrite length_app. simpl.
    replace (n - length w)%nat with (S (n - (length w + 1)))%nat by lia.
    simpl. by rewrite <-app_assoc.
Qed.

Lemma resize_take_old n d w : take (length w) (resize n d w) = take n w.
Proof.
  destruct (decide (n ≤ length w)%nat).
  - rewrite resize_le by done. apply take_ge. rewrite length_take. lia.
  - rewrite resize_ge by lia. rewrite take_app_length. symmetry. apply take_ge. lia.
Qed.

Lemma resize_drop_new n d w : drop (length w) (resize n d w) = replicate (n - length w) d.
Proof.
  destruct (decide (n ≤ length w)%nat).
  - rewrite resize_le by done. rewrite drop_ge by (rewrite length_take; lia).
    by replace (n - length w)%nat with 0%nat by lia.
  - rewrite resize_ge by lia. by rewrite drop_app_length.
Qed.

Lemma resize_snoc_default n d w : resize n d (w ++ [d]) = resize n d w.
Proof.
  rewrite <-insert_resize_snoc.
  destruct (decide (n ≤ length w)%nat) as [Hle|Hgt].
  - rewrite list_insert_ge; [done|]. by rewrite length_resize.
  - rewrite resize_ge by lia. rewrite <-(Nat.add_0_r (length w)) at 1. rewrite insert_app_r.
    by rewrite insert_replicate.
Qed.
End ArrayWrites.

Lemma for_range_ind {S} (P : nat → S → Prop) (start stop step : nat)
    (body : nat → S → S) (s : S) :
  P 0%nat s →
  (∀ h s, (h < (stop - start + step - 1) / step)%nat → P h s →
          P (Datatypes.S h) (body (start + h * step)%nat s)) →
  P ((stop - start + step - 1) / step)%nat (for_range start stop step body s).
Proof.
  unfold for_range, range. generalize ((stop - start + step - 1) / step)%nat as count.
  intros count H0 Hstep. induction count as [|count IH].
  - done.
  - rewrite seq_S, fmap_app, foldl_app. simpl. apply Hstep; [lia|].
    apply IH. intros h s' Hh. apply Hstep. lia.
Qed.

Lemma newArray_nat {A} (zero : A) (n : nat) : newArray zero (Z.of_nat n) = Ok (replicate n zero).
Proof.
  unfold newArray. destruct (Z.ltb_spec (Z.of_nat n) 0); [lia|]. by rewrite Nat2Z.id.
Qed.

Lemma getIntArray_kind (k : IntKind) (n : nat) :
  Decoder.getIntArray (Encoding.IntDataType k) (Z.of_nat n) = Ok (k, replicate n 0).
Proof. destruct k; simpl; by rewrite newArray_nat. Qed.

Lemma plus_Int (a b : Z) : plus (Some (Int a)) (Some (Int b)) = Int (a + b).
Proof. reflexivity. Qed.

Lemma toNumber_Some (n : Num) : toNumber (Some n) = n.
Proof. reflexivity. Qed.

(** ** RunLength *)

Lemma emitted_take_step (data : list Z) (h : nat) (value : Z) :
  data !! (h * 2)%nat = Some value →
  emitted (take (S h * 2) data)
  = emitted (take (h * 2) data) ++ replicate (Decoder.turns (data !! (h * 2 + 1)%nat)) value.
Proof.
  revert data. induction h as [|h IH]; intros data Hv.
  - destruct data as [|v [|l rest]]; simplify_eq/=; [done|].
    by rewrite app_nil_r.
  - destruct data as [|v [|l rest]]; simplify_eq/=.
    rewrite (IH rest Hv). by rewrite app_assoc.
Qed.

Lemma pairs_bound (n h : nat) : (h < (n - 0 + 2 - 1) / 2)%nat → (h * 2 < n)%nat.
Proof.
  intros Hh. pose proof (Nat.div_mod_eq (n - 0 + 2 - 1) 2).
  pose proof (Nat.mod_upper_bound (n - 0 + 2 - 1) 2). lia.
Qed.

Lemma pairs_cover (n : nat) : (n ≤ (n - 0 + 2 - 1) / 2 * 2)%nat.
Proof.
  pose proof (Nat.div_mod_eq (n - 0 + 2 - 1) 2).
  pose proof (Nat.mod_upper_bound (n - 0 + 2 - 1) 2). lia.
Qed.

Lemma turns_loop (k : IntKind) (n c : nat) (value : option Num) (w : list Z) :
  Nat.iter c (λ '(output, dataOffset), (Decoder.store k output dataOffset value, S dataOffset))
    (resize n 0 w, length w)
  = (resize n 0 (w ++ replicate c (toElem k (toNumber value))),
     length (w ++ replicate c (toElem k (toNumber value)))).
Proof.
  induction c as [|c IH]; simpl.
  - by rewrite app_nil_r.
  - rewrite IH. unfold Decoder.store. rewrite insert_resize_snoc.
    rewrite <-app_assoc, <-replicate_S_end. f_equal.
    rewrite !length_app. simpl. rewrite !length_replicate. lia.
Qed.

Lemma runLength_resize (k : IntKind) (data : list Z) (srcSize : nat) :
  Decoder.runLength data (Encoding.IntDataType k) (Z.of_nat srcSize)
  = Ok (IntArr k (resize srcSize 0 ((λ v, toElem k (Int v)) <$> emitted data))).
Proof.
  unfold Decoder.runLength. rewrite getIntArray_kind. simpl.
  set (body := λ (i : nat) '(output, dataOffset), _).
  assert (for_range 0 (length data) 2 body (replicate srcSize 0, 0%nat)
          = (let w := (λ v, toElem k (Int v)) <$> emitted (take ((length data - 0 + 2 - 1) / 2 * 2) data) in
             (resize srcSize 0 w, length w))) as ->.
  { apply (for_range_ind (λ h st, st = let w := (λ v, toElem k (Int v)) <$> emitted (take (h * 2) data) in
                                     (resize srcSize 0 w, length w))).
    - simpl. by rewrite resize_nil.
    - intros h st Hh ->. cbv zeta.
      pose proof (pairs_bound _ _ Hh) as Hlt.
      destruct (lookup_lt_is_Some_2 data (h * 2)%nat Hlt) as [value Hv].
      unfold body. simpl. unfold idx. rewrite Hv. simpl.
      rewrite turns_loop. simpl.
      change (S (S (h * 2))) with (S h * 2)%nat.
      rewrite (emitted_take_step data h value Hv).
      rewrite fmap_app, fmap_replicate. done. }
  cbv zeta. rewrite take_ge by apply pairs_cover. done.
Qed.

(** C3, as amended: the RunLength decoder never compares the number of
    emitted values with srcSize and raises no error on a mismatch. For
    every integer srcType and every srcSize >= 0 it returns an array of
    exactly srcSize elements of that type: the emitted values in order,
    cut off after srcSize of them when there are more, followed by zeros
    when there are fewer. *)
Theorem runLength_fills_srcSize (k : IntKind) (data : list Z) (srcSize : nat) :
  let output := resize srcSize 0 ((λ v, toElem k (Int v)) <$> emitted data) in
  Decoder.runLength data (Encoding.IntDataType k) (Z.of_nat srcSize) = Ok (IntArr k output)
  ∧ length output = srcSize
  ∧ take (length (emitted data)) output
    = take srcSize ((λ v, toElem k (Int v)) <$> emitted data)
  ∧ drop (length (emitted data)) output
    = replicate (srcSize - length (emitted data)) 0.
Proof.
  intros output. split_and!.
  - apply runLength_resize.
  - apply length_resize.
  - unfold output. rewrite <-(length_fmap (λ v, toElem k (Int v)) (emitted data)).
    apply resize_take_old.
  - unfold output. rewrite <-(length_fmap (λ v, toElem k (Int v)) (emitted data)).
    apply resize_drop_new.
Qed.

(** C3, counterexample to the claim as stated: with pairs that emit 5
    values, srcSize = 4 (excess) and srcSize = 6 (insufficient) both decode
    without an error. *)
Lemma runLength_mismatch_returns :
  length (emitted [7; 3; 2; 2]) = 5%nat
  ∧ Decoder.decodeStep true (Some (IntArr Int32Array [7; 3; 2; 2])) (RunLength 3 4)
    = Ok (Some (IntArr Int32Array [7; 7; 7; 2]))
  ∧ Decoder.decodeStep true (Some (IntArr Int32Array [7; 3; 2; 2])) (RunLength 3 6)
    = Ok (Some (IntArr Int32Array [7; 7; 7; 2; 2; 0])).
Proof. split_and!; reflexivity. Qed.

(** ** Delta *)

Lemma length_sums k prev data : length (sums k prev data) = length data.
Proof. revert prev. induction data as [|x data IH]; intros prev; simpl; [done|]. by rewrite IH. Qed.

Lemma sums_snoc k prev data x :
  sums k prev (data ++ [x])
  = sums k prev data ++ [toElem k (Int (x + default prev (last (sums k prev data))))].
Proof.
  revert prev. induction data as [|a data IH]; intros prev; simpl; [done|].
  rewrite IH.
  assert (∀ (y : Z) t, default prev (last (y :: t)) = default y (last t)) as ->
    by (intros y t; rewrite last_cons; by destruct (last t)).
  done.
Qed.

Lemma wrap_toInt32 (bits x o : Z) :
  0 <= bits <= 32 → (x + wrapS 32 o) mod 2 ^ bits = (x + o) mod 2 ^ bits.
Proof.
  intros Hb. unfold wrapS.
  rewrite (Z.mod_eq (o + 2 ^ (32 - 1)) (2 ^ 32)) by lia.
  replace (2 ^ 32) with (2 ^ (32 - bits) * 2 ^ bits) by (rewrite <-Z.pow_add_r by lia; f_equal; lia).
  replace (x + (o + 2 ^ (32 - 1) - 2 ^ (32 - bits) * 2 ^ bits * ((o + 2 ^ (32 - 1)) `div` (2 ^ (32 - bits) * 2 ^ bits)) - 2 ^ (32 - 1)))
    with (x + o + (- (2 ^ (32 - bits) * ((o + 2 ^ (32 - 1)) `div` (2 ^ (32 - bits) * 2 ^ bits)))) * 2 ^ bits) by lia.
  apply Z_mod_plus_full.
Qed.

Lemma wrapS_toInt32 (bits x o : Z) :
  0 < bits <= 32 → wrapS bits (x + wrapS 32 o) = wrapS bits (x + o).
Proof.
  intros Hb.
  change (wrapS bits (x + wrapS 32 o))
    with ((x + wrapS 32 o + 2 ^ (bits - 1)) mod 2 ^ bits - 2 ^ (bits - 1)).
  replace (x + wrapS 32 o + 2 ^ (bits - 1)) with (x + 2 ^ (bits - 1) + wrapS 32 o) by lia.
  rewrite wrap_toInt32 by lia. unfold wrapS. do 2 f_equal. lia.
Qed.

Lemma toElem_toInt32 k x o : toElem k (Int (x + toInt32 (Int o))) = toElem k (Int (x + o)).
Proof.
  unfold toElem, toInt32, toInteger.
  destruct k; unfold wrapU; first [ by apply wrapS_toInt32 | by apply wrap_toInt32 ].
Qed.

Lemma delta_sums (k : IntKind) (data : list Z) (origin : Z) :
  Decoder.delta data origin (Encoding.IntDataType k) = Ok (IntArr k (sums k origin data)).
Proof.
  unfold Decoder.delta. rewrite getIntArray_kind. cbn [mbind Result_bind].
  set (n := length data).
  destruct (Nat.eqb_spec n 0) as [Hn|Hn].
  { apply nil_length_inv in Hn. by subst data. }
  set (body := λ (i : nat) (output : list Z), _).
  destruct (lookup_lt_is_Some_2 data 0%nat ltac:(fold n; lia)) as [x0 Hx0].
  assert (for_range 1 n 1 body (Decoder.store k (replicate n 0) 0 (Some (plus (idx data 0) (Some (Int (toInt32 (Int origin)))))))
          = resize n 0 (sums k origin (take (1 + (n - 1 + 1 - 1) / 1) data))) as ->.
  { apply (for_range_ind (λ h out, out = resize n 0 (sums k origin (take (1 + h) data)))).
    - change (1 + 0)%nat with 1%nat. rewrite (take_S_r _ _ _ Hx0), take_0. unfold Decoder.store, idx. rewrite Hx0.
      cbn [fmap option_fmap option_map app sums].
      rewrite plus_Int, toNumber_Some, toElem_toInt32, <-(resize_nil n 0).
      apply (insert_resize_snoc n 0 _ []).
    - intros h out Hh ->. rewrite Nat.div_1_r in Hh.
      assert (1 + h < n)%nat as Hlt by lia.
      destruct (lookup_lt_is_Some_2 data (1 + h)%nat Hlt) as [x Hx].
      replace (1 + S h)%nat with (S (1 + h)) by lia.
      rewrite (take_S_r _ _ _ Hx), sums_snoc.
      set (w := sums k origin (take (1 + h) data)).
      assert (length w = (1 + h)%nat) as Hw.
      { unfold w. rewrite length_sums, length_take. fold n. lia. }
      unfold body. rewrite Nat.mul_1_r.
      replace (1 + h - 1)%nat with (pred (length w)) by lia.
      unfold idx. rewrite Hx, lookup_resize by lia. rewrite <-last_lookup.
      destruct (last w) as [y|] eqn:Hy.
      2:{ apply last_None in Hy. rewrite Hy in Hw. done. }
      unfold Decoder.store. cbn [fmap option_fmap option_map default from_option id].
      rewrite plus_Int, toNumber_Some.
      rewrite <-Hw at 1. by rewrite insert_resize_snoc. }
  rewrite Nat.div_1_r, take_ge by (fold n; lia).
  rewrite resize_all_alt; [done|]. by rewrite length_sums.
Qed.

Lemma sums_lookup_0 k prev data x :
  data !! 0%nat = Some x → sums k prev data !! 0%nat = Some (toElem k (Int (x + prev))).
Proof. destruct data; intros [= ->]; done. Qed.

Lemma sums_lookup_S k prev data i x y :
  data !! S i = Some x → sums k prev data !! i = Some y →
  sums k prev data !! S i = Some (toElem k (Int (x + y))).
Proof.
  revert prev data. induction i as [|i IH]; intros prev [|a [|b data]] Hx Hy; simplify_eq/=.
  - done.
  - by apply (IH _ (b :: data)).
Qed.

(** C2: for every input sequence, every origin and every integer srcType,
    the Delta decoder returns an array of the input's length in that type,
    with out[0] = in[0] + origin and out[i] = in[i] + out[i-1] for
    i >= 1, each sum wrapping in srcType; the empty input gives the empty
    output, and origin 10 over Int32 [1,2,3,-1] gives [11,13,16,15]. *)
Theorem delta_cumulative_sums (k : IntKind) (data : list Z) (origin : Z) :
  ∃ output,
    Decoder.delta data origin (Encoding.IntDataType k) = Ok (IntArr k output)
    ∧ length output = length data
    ∧ (∀ x, data !! 0%nat = Some x → output !! 0%nat = Some (toElem k (Int (x + origin))))
    ∧ (∀ i x y, data !! S i = Some x → output !! i = Some y →
                output !! S i = Some (toElem k (Int (x + y))))
    ∧ (data = [] → output = [])
    ∧ Decoder.delta [1; 2; 3; -1] 10 (Encoding.IntDataType Int32Array)
      = Ok (IntArr Int32Array [11; 13; 16; 15]).
Proof.
  exists (sums k origin data). split_and!.
  - apply delta_sums.
  - apply length_sums.
  - intros x. apply sums_lookup_0.
  - intros i x y. apply sums_lookup_S.
  - by intros ->.
  - reflexivity.
Qed.

Lemma delta_cumulative_sums_witness :
  ∃ output,
    Decoder.delta [1; 2; 3; -1] 10 3 = Ok (IntArr Int32Array output)
    ∧ output !! 0%nat = Some 11 ∧ output !! 1%nat = Some 13.
Proof.
  destruct (delta_cumulative_sums Int32Array [1; 2; 3; -1] 10)
    as (output & Hrun & _ & H0 & HS & _).
  exists output. split; [exact Hrun|].
  pose proof (H0 1 eq_refl) as H0'. split; [exact H0'|].
  exact (HS 0%nat 2 11 eq_refl H0').
Defined.

(** ** IntegerPacking *)

Lemma add_nan_r (x : float) : (x + nan)%float = nan.
Proof.
  rewrite <-(SF2Prim_Prim2SF (x + nan)), add_spec.
  change (Prim2SF nan) with S754_nan.
  by destruct (Prim2SF x) as [[]|[]| |[] ? ?].
Qed.

Lemma store_nan (k : IntKind) (x : Num) : toElem k (add x (Flt nan)) = 0.
Proof. destruct x; simpl; rewrite add_nan_r; by destruct k. Qed.

Section Packing.
Variables (continues : Z → bool) (cond : option Num → bool) (data : list Z).
Hypothesis cond_token : ∀ t : option Z, cond (Int <$> t) = from_option continues false t.

Lemma packInner_walk (fuel : nat) (i : nat) (acc : Z) :
  (length data - i ≤ fuel)%nat →
  ∃ acc' i',
    Decoder.packInner cond data fuel (Int acc) i (idx data i) = Some (Int acc', i', idx data i')
    ∧ (i ≤ i')%nat
    ∧ cond (idx data i') = false
    ∧ walk continues acc (drop i data) = walk continues acc' (drop i' data).
Proof.
  revert i acc. induction fuel as [|fuel IH]; intros i acc Hfuel.
  - exists acc, i. simpl.
    assert (data !! i = None) as Hnone by (apply lookup_ge_None; lia).
    assert (cond (idx data i) = false) as Hc by (unfold idx; by rewrite cond_token, Hnone).
    by rewrite Hc.
  - simpl. destruct (cond (idx data i)) eqn:Hc.
    + unfold idx in Hc. rewrite cond_token in Hc.
      destruct (data !! i) as [t|] eqn:Ht; [|done]. simpl in Hc.
      destruct (IH (S i) (acc + t) ltac:(lia)) as (acc' & i' & Hrun & Hle & Hstop & Hun).
      exists acc', i'. unfold idx at 1. rewrite Ht. cbn [fmap option_fmap option_map].
      rewrite plus_Int, Hrun. split_and!; [done|lia|done|].
      rewrite (drop_S _ _ _ Ht). simpl. by rewrite Hc.
    + by exists acc, i.
Qed.

Lemma packOuter_walk (fuel : nat) (i : nat) (w : list Z) (srcSize : nat) :
  (length data - i ≤ fuel)%nat →
  Decoder.packOuter cond data fuel i (length w) (resize srcSize 0 w)
  = Some (resize srcSize 0 (w ++ (wrapS 32 <$> walk continues 0 (drop i data)))).
Proof.
  revert i w. induction fuel as [|fuel IH]; intros i w Hfuel.
  - simpl. destruct (Nat.ltb_spec i (length data)); [lia|].
    by rewrite drop_ge, app_nil_r by lia.
  - simpl. destruct (Nat.ltb_spec i (length data)) as [Hlt|Hge].
    2:{ by rewrite drop_ge, app_nil_r by lia. }
    destruct (packInner_walk (length data) i 0 ltac:(lia))
      as (acc' & i' & Hrun & Hle & Hstop & Hun).
    rewrite Hrun. cbn [mbind option_bind]. rewrite Hun.
    unfold idx in Hstop. rewrite cond_token in Hstop. unfold idx at 1, Decoder.store.
    destruct (data !! i') as [t|] eqn:Ht.
    + cbn [fmap option_fmap option_map]. rewrite plus_Int, toNumber_Some.
      rewrite insert_resize_snoc.
      replace (S (length w)) with (length (w ++ [toElem Int32Array (Int (acc' + t))]))
        by (rewrite length_app; simpl; lia).
      rewrite IH by lia. rewrite (drop_S _ _ _ Ht). simpl in Hstop |- *. rewrite Hstop.
      by rewrite fmap_cons, <-app_assoc.
    + cbn [fmap option_fmap option_map]. rewrite toNumber_Some.
      unfold plus. change (toNumber None) with (Flt nan). rewrite store_nan.
      rewrite insert_resize_snoc, resize_snoc_default.
      apply lookup_ge_None in Ht. rewrite (drop_ge data i') by lia. simpl. rewrite app_nil_r.
      destruct fuel; simpl; destruct (Nat.ltb_spec (S i') (length data)); try lia; done.
Qed.

End Packing.

Lemma integerPackingSigned_unpack (data : list Z) (byteCount : Z) (srcSize : nat) :
  let upper := if byteCount =? 1 then 0x7F else 0x7FFF in
  Decoder.integerPackingSigned data byteCount (Z.of_nat srcSize)
  = Ok (IntArr Int32Array (resize srcSize 0 (wrapS 32 <$> unpack upper (- upper - 1) 0 data))).
Proof.
  intros upper. unfold Decoder.integerPackingSigned. rewrite newArray_nat.
  cbn [mbind Result_bind]. fold upper.
  rewrite <-(resize_nil srcSize 0).
  pose proof (packOuter_walk (λ t, (t =? upper) || (t =? - upper - 1))
                (λ t, strictEqU t upper || strictEqU t (- upper - 1)) data
                ltac:(by intros [t|]) (length data) 0 [] srcSize ltac:(lia)) as H.
  cbn [length app] in H. rewrite drop_0 in H. by rewrite H.
Qed.

(** The unsigned mode, with [upper] the only continuation token; with the
    lemma above, no call of [integerPacking] runs out of fuel. *)
Lemma integerPackingUnsigned_unpack (data : list Z) (byteCount : Z) (srcSize : nat) :
  let upper := if byteCount =? 1 then 0xFF else 0xFFFF in
  Decoder.integerPackingUnsigned data byteCount (Z.of_nat srcSize)
  = Ok (IntArr Int32Array (resize srcSize 0 (wrapS 32 <$> unpackUnsigned upper 0 data))).
Proof.
  intros upper. unfold Decoder.integerPackingUnsigned. rewrite newArray_nat.
  cbn [mbind Result_bind]. fold upper.
  rewrite <-(resize_nil srcSize 0).
  pose proof (packOuter_walk (λ t, t =? upper) (λ t, strictEqU t upper) data
                ltac:(by intros [t|]) (length data) 0 [] srcSize ltac:(lia)) as H.
  cbn [length app] in H. rewrite drop_0 in H. by rewrite H.
Qed.

(** C1: for every input sequence the signed IntegerPacking decoder walks
    the tokens left to right, adds the tokens equal to upper (0x7F for
    byteCount 1, 0x7FFF for byteCount 2) or to lower = -upper-1 to a
    running sum, adds the first other token, emits the sum into the Int32
    output and resets the sum; Int8 input [127, 127, 1, -128, -1, 5] with
    srcSize 3 decodes to Int32 [255, -129, 5]. *)
Theorem integerPacking_signed_walk :
  (∀ (data : list Z) (srcSize : nat),
     Decoder.integerPacking data 1 false (Z.of_nat srcSize)
     = Ok (IntArr Int32Array
             (resize srcSize 0 (toElem Int32Array ∘ Int <$> unpack 0x7F (-0x7F - 1) 0 data))))
  ∧ (∀ (data : list Z) (srcSize : nat),
     Decoder.integerPacking data 2 false (Z.of_nat srcSize)
     = Ok (IntArr Int32Array
             (resize srcSize 0 (toElem Int32Array ∘ Int <$> unpack 0x7FFF (-0x7FFF - 1) 0 data))))
  ∧ Decoder.integerPacking [127; 127; 1; -128; -1; 5] 1 false 3
    = Ok (IntArr Int32Array [255; -129; 5]).
Proof.
  split_and!.
  - intros data srcSize. apply (integerPackingSigned_unpack data 1).
  - intros data srcSize. apply (integerPackingSigned_unpack data 2).
  - reflexivity.
Qed.

(** ** FixedPoint and IntervalQuantization *)

Lemma getFloatArray_kind (k : FloatKind) (n : nat) :
  Decoder.getFloatArray (Encoding.FloatDataType k) (Z.of_nat n) = Ok (k, replicate n 0%float).
Proof. destruct k; simpl; by rewrite newArray_nat. Qed.

Lemma for_range_map {A} (g : option Num → A) (d : A) (data : list Z) :
  for_range 0 (length data) 1 (λ i output, <[i := g (idx data i)]> output)
    (replicate (length data) d)
  = (λ x, g (Some (Int x))) <$> data.
Proof.
  set (n := length data). set (f := λ x, g (Some (Int x))).
  assert (for_range 0 n 1 (λ i output, <[i := g (idx data i)]> output) (replicate n d)
          = resize n d (f <$> take ((n - 0 + 1 - 1) / 1) data)) as ->.
  { apply (for_range_ind (λ h out, out = resize n d (f <$> take h data))).
    - by rewrite take_0, fmap_nil, resize_nil.
    - intros h out Hh ->. rewrite Nat.div_1_r in Hh.
      assert (h < n)%nat as Hlt by lia.
      destruct (lookup_lt_is_Some_2 data h Hlt) as [x Hx].
      rewrite Nat.add_0_l, Nat.mul_1_r, (take_S_r _ _ _ Hx), fmap_app. simpl.
      unfold idx. rewrite Hx. simpl.
      replace h with (length (f <$> take h data)) at 1
        by (rewrite length_fmap, length_take; fold n; lia).
      by rewrite insert_resize_snoc. }
  rewrite Nat.div_1_r, take_ge by (fold n; lia).
  by rewrite resize_all_alt by (by rewrite length_fmap).
Qed.

Lemma intervalQuantization_map (k : FloatKind) (data : list Z) (min max numSteps : float) :
  Decoder.intervalQuantization data min max numSteps (Encoding.FloatDataType k)
  = Ok (FloatArr k
          ((λ x, toFloatElem k (Flt (min + (max - min) / (numSteps - 1) * ofZ x))) <$> data)).
Proof.
  unfold Decoder.intervalQuantization. rewrite getFloatArray_kind. cbn [mbind Result_bind].
  set (delta := ((max - min) / (numSteps - 1))%float).
  by rewrite (for_range_map
                (λ v, toFloatElem k (add (Flt min) (mul (Flt delta) (toNumber v))))).
Qed.

Lemma fixedPoint_map (k : FloatKind) (data : list Z) (factor : float) :
  Decoder.fixedPoint data factor (Encoding.FloatDataType k)
  = Ok (FloatArr k ((λ x, toFloatElem k (Flt (1 / factor * ofZ x))) <$> data)).
Proof.
  unfold Decoder.fixedPoint. rewrite getFloatArray_kind. cbn [mbind Result_bind].
  by rewrite (for_range_map (λ v, toFloatElem k (mul (Flt (1 / factor)) (toNumber v)))).
Qed.

(** C4, as amended: the IntervalQuantization decoder does not test
    numSteps and raises no error for numSteps < 2. For every numSteps, every
    min and max and each float srcType it returns a float array of the
    input's length with out[i] = min + ((max - min) / (numSteps - 1)) * in[i]
    in binary64 arithmetic, stored in srcType; with numSteps = 1 the step is
    a division by zero. *)
Theorem intervalQuantization_total (k : FloatKind) (data : list Z) (min max numSteps : float) :
  let step := ((max - min) / (numSteps - 1))%float in
  let output := (λ x, toFloatElem k (Flt (min + step * ofZ x))) <$> data in
  Decoder.intervalQuantization data min max numSteps (Encoding.FloatDataType k)
  = Ok (FloatArr k output)
  ∧ length output = length data
  ∧ Decoder.intervalQuantization data min max 1 (Encoding.FloatDataType k)
    = Ok (FloatArr k ((λ x, toFloatElem k (Flt (min + (max - min) / 0 * ofZ x))) <$> data)).
Proof.
  intros step output. split_and!.
  - apply intervalQuantization_map.
  - apply length_fmap.
  - apply (intervalQuantization_map k data min max 1).
Qed.

(** C4, counterexample to the claim as stated: numSteps = 1 decodes
    without an error. *)
Lemma intervalQuantization_one_step_returns :
  Decoder.decodeStep true (Some (IntArr Int32Array [0; 2; 4])) (IntervalQuantization 0 1 1 33)
  = Ok (Some (FloatArr Float64Array [nan; infinity; infinity])).
Proof. evaluate. Qed.

(** ** The pipeline *)

Lemma not_known_kind (s : string) :
  bool_decide (s ∈ knownKinds) = false → s ∉ knownKinds.
Proof. apply bool_decide_eq_false_1. Qed.

(** C5, as amended: the decoder has no error for an unknown kind. For
    every descriptor whose kind is none of the seven kinds of the switch,
    [decodeStep] raises nothing and returns undefined, whatever its input. *)
Theorem decodeStep_unknown_kind_undefined
    (host : bool) (data : option Arr) (encoding : Encoding) :
  kind encoding ∉ knownKinds → Decoder.decodeStep host data encoding = Ok None.
Proof.
  intros Hk. destruct encoding; try done; exfalso; apply Hk; unfold knownKinds; simpl;
    repeat first [ apply list_elem_of_here | apply list_elem_of_further ].
Qed.

Lemma decodeStep_unknown_kind_undefined_witness :
  Decoder.decodeStep true (Some (IntArr Uint8Array [1; 2; 3])) (OtherKind "Zlib") = Ok None.
Proof.
  apply decodeStep_unknown_kind_undefined. apply not_known_kind. vm_compute. reflexivity.
Defined.

(** C5, counterexample to the claim as stated: a descriptor of kind
    "Zlib" is stepped over without an error, and a pipeline made of it
    alone decodes to undefined. *)
Lemma decodeStep_unknown_kind_returns :
  Decoder.decodeStep true (Some (IntArr Uint8Array [1; 2; 3])) (OtherKind "Zlib") = Ok None
  ∧ Decoder.decode true
      {| EncodedData.encoding := [OtherKind "Zlib"];
         EncodedData.data := Some (IntArr Uint8Array [1; 2; 3]) |}
    = Ok None.
Proof. split; reflexivity. Qed.

(** ** The column accessors *)

Lemma strictEq_refl (n : Num) : strictEq n n = negb (Val_isNaN (VNum n)).
Proof.
  destruct n as [z|f]; simpl.
  - apply Z.eqb_refl.
  - unfold is_nan. by rewrite negb_involutive.
Qed.

Lemma Val_strictEq_refl (v : Val) : Val_strictEq v v = negb (Val_isNaN v).
Proof.
  destruct v as [| |n|s]; try done.
  - apply strictEq_refl.
  - simpl. apply String.eqb_refl.
Qed.

(** C8, as amended: for every column of the four variants and every row
    r, areValuesEqual(r, r) is true exactly when the value stored at r is
    not a floating-point NaN; it is true in particular on every row of a
    string column and of a column backed by an integer typed array. *)
Theorem areValuesEqual_same_row (c : MaterializedColumn) (row : nat) :
  areValuesEqual c row row = negb (Val_isNaN (at_row (dataOf c) row))
  ∧ (∀ k elems, dataOf c = IntArr k elems → areValuesEqual c row row = true)
  ∧ (∀ elems, dataOf c = Array elems → (∀ f, elems !! row ≠ Some (VNum (Flt f))) →
       areValuesEqual c row row = true).
Proof.
  assert (areValuesEqual c row row = negb (Val_isNaN (at_row (dataOf c) row))) as Heq
    by (destruct c; apply Val_strictEq_refl).
  split_and!; [done|..].
  - intros k elems Hd. rewrite Heq, Hd. simpl. by destruct (elems !! row).
  - intros elems Hd Hs. rewrite Heq, Hd. simpl.
    destruct (elems !! row) as [[| |[z|f]|s]|] eqn:E; try done. by destruct (Hs f).
Qed.

Lemma areValuesEqual_same_row_witness :
  areValuesEqual (StringColumn (Array [VString "foo"; VNull])) 1 1 = true.
Proof.
  apply (proj2 (proj2 (areValuesEqual_same_row (StringColumn (Array [VString "foo"; VNull])) 1))
           [VString "foo"; VNull] eq_refl).
  intros f. simpl. discriminate.
Defined.

(** C8, counterexample to the claim as stated: a Float64 column whose
    bytes are a NaN, and a fixed-point column decoded with the least
    positive factor (1/factor is infinite, times 0 is NaN), each hold a row
    that differs from itself. *)
Lemma areValuesEqual_nan_row :
  wrapColumn true nanColumn = Ok (Materialized (NumericColumn (FloatArr Float64Array [nan])))
  ∧ wrapColumn true tinyFactorColumn
    = Ok (Materialized (NumericColumn (FloatArr Float64Array [nan])))
  ∧ areValuesEqual (NumericColumn (FloatArr Float64Array [nan])) 0 0 = false.
Proof. split_and!; evaluate. Qed.

(** C6, as amended: for every MaskedNumericColumn and every row r,
    getString(r) is null if and only if getValuePresence(r) is not Present;
    for every MaskedStringColumn, getString(r) is null if and only if
    getValuePresence(r) is not Present or the string stored at r is null. *)
Theorem masked_presence_consistency :
  (∀ numberToString data mask row,
     MaskedNumericColumn.getString numberToString data mask row = VNull
     ↔ isPresent (MaskedNumericColumn.getValuePresence mask row) = false)
  ∧ (∀ data mask row,
     MaskedStringColumn.getString data mask row = VNull
     ↔ isPresent (MaskedStringColumn.getValuePresence mask row) = false
       ∨ at_row data row = VNull).
Proof.
  split.
  - intros numberToString data mask row.
    unfold MaskedNumericColumn.getString, MaskedNumericColumn.getValuePresence.
    destruct (isPresent (at_row mask row)); split; done.
  - intros data mask row.
    unfold MaskedStringColumn.getString, MaskedStringColumn.getValuePresence.
    destruct (isPresent (at_row mask row)); split; try done; auto.
    by intros [|].
Qed.

Lemma masked_presence_consistency_witness :
  MaskedStringColumn.getString (Array [VString "foo"]) (IntArr Uint8Array [1]) 0 = VNull.
Proof.
  apply (proj2 (proj2 masked_presence_consistency
                  (Array [VString "foo"]) (IntArr Uint8Array [1]) 0%nat)).
  left. reflexivity.
Defined.

(** C6, counterexample to the claim as stated: a string column whose row
    0 is the absent string (index -1 of the StringArray) while its mask
    byte is 0 reads null on a row whose presence is Present. *)
Lemma masked_string_null_present :
  wrapColumn true nullPresentColumn
  = Ok (Materialized (MaskedStringColumn (Array [VNull]) (IntArr Uint8Array [0])))
  ∧ MaskedStringColumn.getString (Array [VNull]) (IntArr Uint8Array [0]) 0 = VNull
  ∧ MaskedStringColumn.getValuePresence (IntArr Uint8Array [0]) 0
    = VNum (Int ValuePresence.Present).
Proof. split_and!; evaluate. Qed.

Lemma wrapS_small (bits z : Z) :
  0 < bits → - 2 ^ (bits - 1) <= z < 2 ^ (bits - 1) → wrapS bits z = z.
Proof.
  intros Hb Hz. unfold wrapS.
  replace (2 ^ bits) with (2 * 2 ^ (bits - 1))
    by (rewrite <-Z.pow_succ_r by lia; f_equal; lia).
  rewrite Z.mod_small by lia. lia.
Qed.

(** What [getInteger] computes, class by class: a NumericColumn converts
    the stored value by ToInt32, that is truncates it toward zero and then
    wraps it into [-2^31, 2^31); a masked column gives 0 on a row whose mask
    is not Present; a MaskedNumericColumn over an integer typed array gives
    the stored integer on a Present row; a StringColumn, and a
    MaskedStringColumn on a Present row, give the result of the fast integer
    parser on the stored string. *)
Lemma getInteger_by_variant (fastParseInt : string → Z → Z → Num) :
  (∀ k elems row z, elems !! row = Some z →
     NumericColumn.getInteger (IntArr k elems) row = Ok (VNum (Int (wrapS 32 z)))
     ∧ (- 2 ^ 31 <= z < 2 ^ 31 →
        NumericColumn.getInteger (IntArr k elems) row = Ok (VNum (Int z))))
  ∧ (∀ k elems row f, elems !! row = Some f →
     NumericColumn.getInteger (FloatArr k elems) row = Ok (VNum (Int (wrapS 32 (truncate f))))
     ∧ (- 2 ^ 31 <= truncate f < 2 ^ 31 →
        NumericColumn.getInteger (FloatArr k elems) row = Ok (VNum (Int (truncate f)))))
  ∧ (∀ data mask row, isPresent (at_row mask row) = false →
     MaskedNumericColumn.getInteger data mask row = Ok (VNum (Int 0)))
  ∧ (∀ k elems mask row z, isPresent (at_row mask row) = true → elems !! row = Some z →
     MaskedNumericColumn.getInteger (IntArr k elems) mask row = Ok (VNum (Int z)))
  ∧ (∀ data row s, at_row data row = VString s →
     StringColumn.getInteger fastParseInt data row
     = Ok (VNum (fastParseInt s 0 (Z.of_nat (String.length s)))))
  ∧ (∀ data mask row, isPresent (at_row mask row) = false →
     MaskedStringColumn.getInteger fastParseInt data mask row = Ok (VNum (Int 0)))
  ∧ (∀ data mask row s, isPresent (at_row mask row) = true → at_row data row = VString s →
     MaskedStringColumn.getInteger fastParseInt data mask row
     = Ok (VNum (fastParseInt s 0 (Z.of_nat (String.length s))))).
Proof.
  split_and!.
  - intros k elems row z Hz. unfold NumericColumn.getInteger. simpl. rewrite Hz. simpl.
    split; [done|]. intros Hr. unfold toInt32. simpl. by rewrite wrapS_small by lia.
  - intros k elems row f Hf. unfold NumericColumn.getInteger. simpl. rewrite Hf. simpl.
    split; [done|]. intros Hr. unfold toInt32. simpl. by rewrite wrapS_small by lia.
  - intros data mask row Hp. unfold MaskedNumericColumn.getInteger. by rewrite Hp.
  - intros k elems mask row z Hp Hz. unfold MaskedNumericColumn.getInteger.
    rewrite Hp. simpl. by rewrite Hz.
  - intros data row s Hs. unfold StringColumn.getInteger. by rewrite Hs.
  - intros data mask row Hp. unfold MaskedStringColumn.getInteger. by rewrite Hp.
  - intros data mask row s Hp Hs. unfold MaskedStringColumn.getInteger. by rewrite Hp, Hs.
Qed.

Lemma getInteger_by_variant_witness :
  MaskedStringColumn.getInteger specParseInt (Array [VString "42"]) (IntArr Uint8Array [0]) 0
  = Ok (VNum (Int 42)).
Proof.
  destruct (getInteger_by_variant specParseInt) as (_ & _ & _ & _ & _ & _ & H).
  exact (H (Array [VString "42"]) (IntArr Uint8Array [0]) 0%nat "42" eq_refl eq_refl).
Defined.

(** A Uint32 column holds 4294967295, an integer that truncation leaves
    unchanged, and [getInteger] of its NumericColumn returns -1. *)
Lemma getInteger_uint32_wraps :
  wrapColumn true uint32Column
  = Ok (Materialized (NumericColumn (IntArr Uint32Array [4294967295])))
  ∧ NumericColumn.getInteger (IntArr Uint32Array [4294967295]) 0 = Ok (VNum (Int (-1))).
Proof. split; evaluate. Qed.

(** The accessors of the two other paths, for the record: a
    MaskedNumericColumn returns the stored number as it is, a StringColumn
    throws on a null row. *)
Example getInteger_other_paths :
  MaskedNumericColumn.getInteger (FloatArr Float64Array [1.5%float]) (IntArr Uint8Array [0]) 0
  = Ok (VNum (Flt 1.5))
  ∧ StringColumn.getInteger specParseInt (Array [VNull]) 0 = Throw TypeError.
Proof. split; evaluate. Qed.

(** C7: the two numeric classes do not agree on [getInteger], and
    neither returns the stored value truncated toward zero throughout. On
    an encoded Float64 column that holds 1.5 and whose mask marks the row
    Present, [wrapColumn] returns a MaskedNumericColumn whose getInteger(0)
    is 1.5, the stored number as it is and no integer, where the
    NumericColumn over the same data returns 1. On a Uint32 column that
    holds 4294967295 the NumericColumn returns -1, where the
    MaskedNumericColumn over the same data returns 4294967295. *)
Theorem getInteger_numeric_siblings_disagree :
  wrapColumn true maskedFloatColumn
  = Ok (Materialized (MaskedNumericColumn (FloatArr Float64Array [1.5%float])
                                          (IntArr Uint8Array [0])))
  ∧ MaskedNumericColumn.getInteger (FloatArr Float64Array [1.5%float]) (IntArr Uint8Array [0]) 0
    = Ok (VNum (Flt 1.5))
  ∧ NumericColumn.getInteger (FloatArr Float64Array [1.5%float]) 0 = Ok (VNum (Int 1))
  ∧ wrapColumn true uint32Column
    = Ok (Materialized (NumericColumn (IntArr Uint32Array [4294967295])))
  ∧ NumericColumn.getInteger (IntArr Uint32Array [4294967295]) 0 = Ok (VNum (Int (-1)))
  ∧ MaskedNumericColumn.getInteger (IntArr Uint32Array [4294967295]) (IntArr Uint8Array [0]) 0
    = Ok (VNum (Int 4294967295)).
Proof. split_and!; evaluate. Qed.

(** ** Categories *)

Lemma new_fold (cols : list EncodedColumn.t) m (l : list string) :
  foldl (λ '(encodedColumns, columnNameList) c,
           (<[c.(EncodedColumn.name) := c]> encodedColumns,
            columnNameList ++ [c.(EncodedColumn.name)])) (m, l) cols
  = (foldl register m cols, l ++ (EncodedColumn.name <$> cols)).
Proof.
  revert m l. induction cols as [|c cols IH]; intros m l; simpl.
  - by rewrite app_nil_r.
  - rewrite IH. by rewrite <-app_assoc.
Qed.

Lemma new_encodedColumns (data : EncodedCategory.t) :
  Category.encodedColumns (Category.new data) = foldl register ∅ data.(EncodedCategory.columns).
Proof. unfold Category.new. by rewrite new_fold. Qed.

Lemma new_columnNames (data : EncodedCategory.t) :
  Category.columnNames (Category.new data) = EncodedColumn.name <$> data.(EncodedCategory.columns).
Proof. unfold Category.new, Category.columnNames. by rewrite new_fold. Qed.

Lemma register_lookup_None (cols : list EncodedColumn.t) (m : gmap string EncodedColumn.t) name :
  name ∉ EncodedColumn.name <$> cols → foldl register m cols !! name = m !! name.
Proof.
  revert m. induction cols as [|c cols IH]; intros m Hn; simpl; [done|].
  rewrite fmap_cons, not_elem_of_cons in Hn. destruct Hn as [Hne Hn].
  rewrite IH by done. unfold register. by rewrite lookup_insert_ne.
Qed.

Lemma register_lookup_Some (cols : list EncodedColumn.t) (m : gmap string EncodedColumn.t) name :
  name ∈ EncodedColumn.name <$> cols →
  ∃ w, foldl register m cols !! name = Some w ∧ w ∈ cols ∧ w.(EncodedColumn.name) = name.
Proof.
  revert m. induction cols as [|c cols IH]; intros m Hin; simpl.
  - by apply elem_of_nil in Hin.
  - destruct (decide (name ∈ EncodedColumn.name <$> cols)) as [Hlater|Hnot].
    + destruct (IH (register m c) Hlater) as (w & Hw & Hel & Hname).
      exists w. split_and!; [done| by apply list_elem_of_further |done].
    + rewrite fmap_cons in Hin. apply elem_of_cons in Hin as [->|Hin]; [|done].
      exists c. rewrite register_lookup_None by done. unfold register.
      rewrite lookup_insert_eq. split_and!; [done| apply list_elem_of_here |done].
Qed.

Lemma register_lookup_NoDup (cols : list EncodedColumn.t) (m : gmap string EncodedColumn.t) c :
  NoDup (EncodedColumn.name <$> cols) → c ∈ cols →
  foldl register m cols !! c.(EncodedColumn.name) = Some c.
Proof.
  revert m. induction cols as [|c' cols IH]; intros m Hnd Hin; simpl.
  - by apply elem_of_nil in Hin.
  - rewrite fmap_cons in Hnd. apply NoDup_cons in Hnd as [Hfresh Hnd].
    apply elem_of_cons in Hin as [->|Hin].
    + rewrite register_lookup_None by done. unfold register. by rewrite lookup_insert_eq.
    + by apply IH.
Qed.

Lemma wrapColumn_no_buffer (host : bool) (w : EncodedColumn.t) :
  w.(EncodedColumn.data).(EncodedData.data) = None → wrapColumn host w = Ok UndefinedColumn.
Proof. intros H. unfold wrapColumn. by rewrite H. Qed.

Lemma wrapColumn_buffer (host : bool) (w : EncodedColumn.t) (c : Column) :
  w.(EncodedColumn.data).(EncodedData.data) ≠ None → wrapColumn host w = Ok c → isDefined c = true.
Proof.
  intros Hbuf. unfold wrapColumn.
  destruct (EncodedData.data (EncodedColumn.data w)); [|done].
  destruct (Decoder.decode host (EncodedColumn.data w)) as [data| |]; simpl; [|done..].
  destruct (match EncodedColumn.mask w with Some mask => Decoder.decode host mask | None => Ok None end)
    as [mask| |]; simpl; [|done..].
  destruct data as [data|]; [|done].
  destruct (isNumericData data), mask; intros [= <-]; done.
Qed.

(** C10: for every encoded column that a category holds under a name and
    whose data record carries no byte buffer, getColumn of that name
    returns the UndefinedColumn sentinel, whose isDefined is false, without
    decoding and without an error. *)
Theorem getColumn_without_buffer
    (host : bool) (this : Category.t) (name : string) (w : EncodedColumn.t) :
  this.(Category.encodedColumns) !! name = Some w →
  w.(EncodedColumn.data).(EncodedData.data) = None →
  Category.getColumn host this name = Ok UndefinedColumn ∧ isDefined UndefinedColumn = false.
Proof.
  intros Hw Hbuf. unfold Category.getColumn. rewrite Hw. by rewrite wrapColumn_no_buffer.
Qed.

Lemma getColumn_without_buffer_witness :
  Category.getColumn true (Category.new sampleCategory) "a" = Ok UndefinedColumn
  ∧ isDefined UndefinedColumn = false.
Proof.
  apply (getColumn_without_buffer true (Category.new sampleCategory) "a" emptyColumn).
  - vm_compute. reflexivity.
  - reflexivity.
Defined.

(** The same on a category as its constructor builds it, where the
    column names are unique. *)
Lemma getColumn_new_without_buffer (host : bool) (data : EncodedCategory.t) (w : EncodedColumn.t) :
  NoDup (EncodedColumn.name <$> data.(EncodedCategory.columns)) →
  w ∈ data.(EncodedCategory.columns) →
  w.(EncodedColumn.data).(EncodedData.data) = None →
  Category.getColumn host (Category.new data) w.(EncodedColumn.name) = Ok UndefinedColumn.
Proof.
  intros Hnd Hin Hbuf. unfold Category.getColumn.
  rewrite new_encodedColumns, register_lookup_NoDup by done.
  by apply wrapColumn_no_buffer.
Qed.

Lemma not_column_name (names : list string) (name : string) :
  bool_decide (name ∈ names) = false → name ∉ names.
Proof. apply bool_decide_eq_false_1. Qed.

(** C9, as amended: for every category and every name not among its
    column names, getColumn(name) does not fail and returns the
    UndefinedColumn sentinel, whose isDefined is false and whose getters
    return null, 0 and Present; for every known column name, getColumn
    resolves the name to an encoded column of that name and, when the data
    record of that column carries a byte buffer, every column it returns
    has isDefined true, while without a byte buffer it returns the
    sentinel. *)
Theorem getColumn_by_name (host : bool) (data : EncodedCategory.t) (name : string) :
  (name ∉ Category.columnNames (Category.new data) →
     Category.getColumn host (Category.new data) name = Ok UndefinedColumn)
  ∧ (isDefined UndefinedColumn = false
     ∧ ∀ row, UndefinedColumnSpec.getString row = VNull
              ∧ UndefinedColumnSpec.getInteger row = VNum (Int 0)
              ∧ UndefinedColumnSpec.getValuePresence row = VNum (Int ValuePresence.Present))
  ∧ (name ∈ Category.columnNames (Category.new data) →
     ∃ w, w ∈ data.(EncodedCategory.columns) ∧ w.(EncodedColumn.name) = name
          ∧ match w.(EncodedColumn.data).(EncodedData.data) with
            | None => Category.getColumn host (Category.new data) name = Ok UndefinedColumn
            | Some _ => ∀ c, Category.getColumn host (Category.new data) name = Ok c →
                             isDefined c = true
            end).
Proof.
  rewrite new_columnNames. unfold Category.getColumn. rewrite new_encodedColumns.
  split_and!; try done.
  - intros Hn. by rewrite register_lookup_None, lookup_empty.
  - intros Hin. destruct (register_lookup_Some _ ∅ _ Hin) as (w & Hw & Hel & Hname).
    exists w. rewrite Hw. split_and!; [done..|].
    destruct (EncodedData.data (EncodedColumn.data w)) eqn:Hbuf.
    + intros c. apply wrapColumn_buffer. by rewrite Hbuf.
    + by apply wrapColumn_no_buffer.
Qed.

Lemma getColumn_by_name_witness :
  Category.getColumn true (Category.new sampleCategory) "nope" = Ok UndefinedColumn.
Proof.
  apply (proj1 (getColumn_by_name true sampleCategory "nope")).
  apply not_column_name. vm_compute. reflexivity.
Defined.

(** C9, counterexample to the claim as stated: "a" is a column name of
    the category, and getColumn("a") returns the sentinel, whose isDefined
    is false. *)
Lemma getColumn_known_name_undefined :
  Category.columnNames (Category.new sampleCategory) = ["a"; "id"]
  ∧ Category.getColumn true (Category.new sampleCategory) "a" = Ok UndefinedColumn
  ∧ isDefined UndefinedColumn = false.
Proof. split_and!; evaluate. Qed.

(** A known column with a byte buffer is materialized. *)
Example getColumn_known_name_defined :
  Category.getColumn true (Category.new sampleCategory) "id"
  = Ok (Materialized (NumericColumn (IntArr Uint32Array [4294967295]))).
Proof. evaluate. Qed.


(** * Further properties of the decoder and of the column view *)

(** ** The allocation of the outputs

    [getIntArray] and [getFloatArray] are the only places where a
    transform validates its descriptor: the type code must be one of the
    enum, the size must not be negative. With the closed forms of the
    loops this gives the outcome of every transform on every input. *)

Lemma getIntArray_outcome (type size : Z) :
  Decoder.getIntArray type size
  = match intKindOf type with
    | Some k => if size <? 0 then Throw RangeError else Ok (k, replicate (Z.to_nat size) 0)
    | None => Throw (Error "Unsupported integer data type.")
    end.
Proof.
  unfold Decoder.getIntArray, intKindOf, newArray.
  destruct type as [|p|p]; try reflexivity;
    do 3 (try destruct p as [p|p|]; try reflexivity); destruct (size <? 0); reflexivity.
Qed.

Lemma getFloatArray_outcome (type size : Z) :
  Decoder.getFloatArray type size
  = match floatKindOf type with
    | Some k => if size <? 0 then Throw RangeError else Ok (k, replicate (Z.to_nat size) 0%float)
    | None => Throw (Error "Unsupported floating data type.")
    end.
Proof.
  unfold Decoder.getFloatArray, floatKindOf, newArray.
  destruct type as [|p|p]; try reflexivity;
    do 6 (try destruct p as [p|p|]; try reflexivity); destruct (size <? 0); reflexivity.
Qed.

Lemma intKindOf_Some (type : Z) (k : IntKind) :
  intKindOf type = Some k → type = Encoding.IntDataType k.
Proof.
  unfold intKindOf.
  destruct type as [|p|p]; try discriminate;
    do 3 (try destruct p as [p|p|]; try discriminate); intros [= <-]; reflexivity.
Qed.

Lemma floatKindOf_Some (type : Z) (k : FloatKind) :
  floatKindOf type = Some k → type = Encoding.FloatDataType k.
Proof.
  unfold floatKindOf.
  destruct type as [|p|p]; try discriminate;
    do 6 (try destruct p as [p|p|]; try discriminate); intros [= <-]; reflexivity.
Qed.

Lemma runLength_outcome (data : list Z) (srcType srcSize : Z) :
  Decoder.runLength data srcType srcSize
  = match intKindOf srcType with
    | Some k =>
        if srcSize <? 0 then Throw RangeError
        else Ok (IntArr k (resize (Z.to_nat srcSize) 0 ((λ v, toElem k (Int v)) <$> emitted data)))
    | None => Throw (Error "Unsupported integer data type.")
    end.
Proof.
  destruct (intKindOf srcType) as [k|] eqn:Hk.
  - apply intKindOf_Some in Hk as ->. destruct (Z.ltb_spec srcSize 0) as [Hneg|Hpos].
    + unfold Decoder.runLength. rewrite getIntArray_outcome.
      destruct k; simpl; by destruct (Z.ltb_spec srcSize 0); try lia.
    + rewrite <-(Z2Nat.id srcSize) at 1 by done. apply runLength_resize.
  - unfold Decoder.runLength. by rewrite getIntArray_outcome, Hk.
Qed.

Lemma delta_outcome (data : list Z) (origin srcType : Z) :
  Decoder.delta data origin srcType
  = match intKindOf srcType with
    | Some k => Ok (IntArr k (sums k origin data))
    | None => Throw (Error "Unsupported integer data type.")
    end.
Proof.
  destruct (intKindOf srcType) as [k|] eqn:Hk.
  - apply intKindOf_Some in Hk as ->. apply delta_sums.
  - unfold Decoder.delta. by rewrite getIntArray_outcome, Hk.
Qed.

Lemma fixedPoint_outcome (data : list Z) (factor : float) (srcType : Z) :
  Decoder.fixedPoint data factor srcType
  = match floatKindOf srcType with
    | Some k => Ok (FloatArr k ((λ x, toFloatElem k (Flt (1 / factor * ofZ x))) <$> data))
    | None => Throw (Error "Unsupported floating data type.")
    end.
Proof.
  destruct (floatKindOf srcType) as [k|] eqn:Hk.
  - apply floatKindOf_Some in Hk as ->. apply fixedPoint_map.
  - unfold Decoder.fixedPoint. by rewrite getFloatArray_outcome, Hk.
Qed.

Lemma intervalQuantization_outcome (data : list Z) (min max numSteps : float) (srcType : Z) :
  Decoder.intervalQuantization data min max numSteps srcType
  = match floatKindOf srcType with
    | Some k =>
        Ok (FloatArr k
              ((λ x, toFloatElem k (Flt (min + (max - min) / (numSteps - 1) * ofZ x))) <$> data))
    | None => Throw (Error "Unsupported floating data type.")
    end.
Proof.
  destruct (floatKindOf srcType) as [k|] eqn:Hk.
  - apply floatKindOf_Some in Hk as ->. apply intervalQuantization_map.
  - unfold Decoder.intervalQuantization. by rewrite getFloatArray_outcome, Hk.
Qed.

Lemma integerPacking_outcome (data : list Z) (byteCount : Z) (isUnsigned : bool) (srcSize : Z) :
  Decoder.integerPacking data byteCount isUnsigned srcSize
  = if srcSize <? 0 then Throw RangeError
    else Ok (IntArr Int32Array
               (resize (Z.to_nat srcSize) 0
                  (wrapS 32 <$> walk (isContinuation byteCount isUnsigned) 0 data))).
Proof.
  destruct (Z.ltb_spec srcSize 0) as [Hneg|Hpos].
  - unfold Decoder.integerPacking, Decoder.integerPackingUnsigned, Decoder.integerPackingSigned,
      newArray.
    destruct isUnsigned; by destruct (Z.ltb_spec srcSize 0); try lia.
  - rewrite <-(Z2Nat.id srcSize) at 1 by done. unfold Decoder.integerPacking, isContinuation.
    destruct isUnsigned.
    + apply integerPackingUnsigned_unpack.
    + apply integerPackingSigned_unpack.
Qed.

(** X1: in the unsigned mode the IntegerPacking decoder walks the tokens
    left to right with a single continuation token, 0xFF for byteCount 1
    and 0xFFFF for every other byteCount: a continuation token is added to
    the running sum, any other token is added, the sum stored as Int32 and
    reset. The output has exactly srcSize elements, the sums from index 0,
    zeros after them, the sums past srcSize dropped; a trailing run of
    continuation tokens stores 0. *)
Theorem integerPacking_unsigned_walk (data : list Z) (byteCount : Z) (srcSize : nat) :
  let upper := if byteCount =? 1 then 0xFF else 0xFFFF in
  let output := resize srcSize 0 (toElem Int32Array ∘ Int <$> unpackUnsigned upper 0 data) in
  Decoder.integerPacking data byteCount true (Z.of_nat srcSize) = Ok (IntArr Int32Array output)
  ∧ length output = srcSize
  ∧ Decoder.integerPacking [255; 255; 1; 7; 255] 1 true 3 = Ok (IntArr Int32Array [511; 7; 0]).
Proof.
  intros upper output. split_and!.
  - apply (integerPackingUnsigned_unpack data byteCount).
  - apply length_resize.
  - reflexivity.
Qed.

(** X2: for every factor and each float srcType the FixedPoint decoder
    returns a float array of the input's length with
    out[i] = (1 / factor) * in[i] in binary64 arithmetic, stored in srcType;
    it does not test the factor, and with factor 0 the multiplier is
    Infinity. *)
Theorem fixedPoint_values (k : FloatKind) (data : list Z) (factor : float) :
  let output := (λ x, toFloatElem k (Flt (1 / factor * ofZ x))) <$> data in
  Decoder.fixedPoint data factor (Encoding.FloatDataType k) = Ok (FloatArr k output)
  ∧ length output = length data
  ∧ Decoder.fixedPoint data 0 (Encoding.FloatDataType k)
    = Ok (FloatArr k ((λ x, toFloatElem k (Flt (infinity * ofZ x))) <$> data)).
Proof.
  intros output. split_and!.
  - apply fixedPoint_map.
  - apply length_fmap.
  - apply (fixedPoint_map k data 0).
Qed.



(** X4: the type codes of [Encoding.getDataType] and the allocators of
    the decoder agree. [getIntArray] and [getFloatArray] applied to the code
    of a typed array allocate a zero-filled array of the same kind, and when
    they return an array, its code is the one they were given and the size
    was not negative; [isSignedIntegerDataType] holds exactly of the kinds
    that can hold -1; a plain Array has no code. *)
Theorem getDataType_codes :
  (∀ k elems (n : nat),
     Encoding.getDataType (IntArr k elems) ≫= (λ type, Decoder.getIntArray type (Z.of_nat n))
     = Ok (k, replicate n 0))
  ∧ (∀ k elems (n : nat),
     Encoding.getDataType (FloatArr k elems)
       ≫= (λ type, Decoder.getFloatArray type (Z.of_nat n))
     = Ok (k, replicate n 0%float))
  ∧ (∀ type size k output,
     Decoder.getIntArray type size = Ok (k, output) →
     Encoding.getDataType (IntArr k output) = Ok type ∧ 0 <= size
     ∧ output = replicate (Z.to_nat size) 0)
  ∧ (∀ type size k output,
     Decoder.getFloatArray type size = Ok (k, output) →
     Encoding.getDataType (FloatArr k output) = Ok type ∧ 0 <= size
     ∧ output = replicate (Z.to_nat size) 0%float)
  ∧ (∀ k elems, Encoding.isSignedIntegerDataType (IntArr k elems) = inRange k (-1))
  ∧ (∀ elems, Encoding.getDataType (Array elems) = Throw (Error "Unsupported integer data type.")).
Proof.
  split_and!.
  - intros k elems n. cbn [Encoding.getDataType mbind Result_bind]. apply getIntArray_kind.
  - intros k elems n. cbn [Encoding.getDataType mbind Result_bind]. apply getFloatArray_kind.
  - intros type size k output. rewrite getIntArray_outcome.
    destruct (intKindOf type) as [k'|] eqn:Hk; [|done].
    apply intKindOf_Some in Hk as ->. destruct (Z.ltb_spec size 0); [done|].
    by intros [= <- <-].
  - intros type size k output. rewrite getFloatArray_outcome.
    destruct (floatKindOf type) as [k'|] eqn:Hk; [|done].
    apply floatKindOf_Some in Hk as ->. destruct (Z.ltb_spec size 0); [done|].
    by intros [= <- <-].
  - by intros [].
  - done.
Qed.

Lemma getDataType_codes_witness :
  Encoding.getDataType (IntArr Int16Array [0; 0]) = Ok 2.
Proof.
  destruct getDataType_codes as (_ & _ & H & _). exact (proj1 (H 2 2 Int16Array [0; 0] eq_refl)).
Defined.

(** ** The elements of the outputs *)

Lemma forallb_Forall {A} (f : A → bool) (l : list A) :
  forallb f l = true ↔ Forall (λ x, f x = true) l.
Proof.
  induction l as [|x l IH]; simpl.
  - split; [constructor|done].
  - rewrite andb_true_iff, IH, Forall_cons. done.
Qed.

Lemma wrapS_range (bits z : Z) :
  0 < bits → - 2 ^ (bits - 1) <= wrapS bits z < 2 ^ (bits - 1).
Proof.
  intros Hb. unfold wrapS.
  replace (2 ^ bits) with (2 * 2 ^ (bits - 1))
    by (rewrite <-Z.pow_succ_r by lia; f_equal; lia).
  assert (0 < 2 ^ (bits - 1)) by (apply Z.pow_pos_nonneg; lia).
  pose proof (Z.mod_pos_bound (z + 2 ^ (bits - 1)) (2 * 2 ^ (bits - 1)) ltac:(lia)). lia.
Qed.

Lemma wrapU_range (bits z : Z) : 0 <= bits → 0 <= wrapU bits z < 2 ^ bits.
Proof. intros Hb. unfold wrapU. apply Z.mod_pos_bound, Z.pow_pos_nonneg; lia. Qed.

Lemma inRange_wrapS8 z : inRange Int8Array (wrapS 8 z) = true.
Proof. pose proof (wrapS_range 8 z ltac:(lia)). simpl in *. unfold inRange. lia. Qed.

Lemma inRange_wrapS16 z : inRange Int16Array (wrapS 16 z) = true.
Proof. pose proof (wrapS_range 16 z ltac:(lia)). simpl in *. unfold inRange. lia. Qed.

Lemma inRange_wrapS32 z : inRange Int32Array (wrapS 32 z) = true.
Proof. pose proof (wrapS_range 32 z ltac:(lia)). simpl in *. unfold inRange. lia. Qed.

Lemma inRange_toElem (k : IntKind) (n : Num) : inRange k (toElem k n) = true.
Proof.
  destruct k; unfold toElem;
    [apply inRange_wrapS8|apply inRange_wrapS16|apply inRange_wrapS32|..].
  - pose proof (wrapU_range 8 (toInteger n) ltac:(lia)). simpl in *. unfold inRange. lia.
  - pose proof (wrapU_range 16 (toInteger n) ltac:(lia)). simpl in *. unfold inRange. lia.
  - pose proof (wrapU_range 32 (toInteger n) ltac:(lia)). simpl in *. unfold inRange. lia.
Qed.

Lemma inRange_0 (k : IntKind) : inRange k 0 = true.
Proof. by destruct k. Qed.

Lemma sums_inRange (k : IntKind) (prev : Z) (data : list Z) :
  Forall (λ z, inRange k z = true) (sums k prev data).
Proof.
  revert prev. induction data as [|x data IH]; intros prev; simpl; constructor.
  - apply inRange_toElem.
  - apply IH.
Qed.

(** ** Byte order

    On a big-endian host [view] reverses every group of [byteSize] bytes
    before the typed array reads it, so that it reads what a little-endian
    host reads from the original buffer. *)

Lemma for_range_inv {S} (P : S → Prop) (start stop step : nat) (body : nat → S → S) (s : S) :
  P s → (∀ i s, P s → P (body i s)) → P (for_range start stop step body s).
Proof.
  intros H0 Hstep. apply (for_range_ind (λ _, P)); [done|]. intros h s' _. apply Hstep.
Qed.

Lemma flipByteOrder_length (data : list Z) (bytes : nat) :
  length (Decoder.flipByteOrder data bytes) = length data.
Proof.
  unfold Decoder.flipByteOrder.
  apply (for_range_inv (λ ret, length ret = length data)).
  - apply length_replicate.
  - intros i ret Hret. apply (for_range_inv (λ ret, length ret = length data)); [done|].
    intros j ret' Hret'. unfold Decoder.store. by rewrite length_insert.
Qed.

Lemma flipByteOrder_bytes (data : list Z) (bytes : nat) :
  Forall (λ z, isByte z = true) (Decoder.flipByteOrder data bytes).
Proof.
  unfold Decoder.flipByteOrder.
  apply (for_range_inv (Forall (λ z, isByte z = true))).
  - by apply Forall_replicate.
  - intros i ret Hret. apply (for_range_inv (Forall (λ z, isByte z = true))); [done|].
    intros j ret' Hret'. unfold Decoder.store. apply Forall_insert; [done|].
    apply (inRange_toElem Uint8Array).
Qed.

Lemma groups_count (m b : nat) : (0 < b)%nat → ((m * b - 0 + b - 1) / b = m)%nat.
Proof.
  intros Hb. replace (m * b - 0 + b - 1)%nat with ((b - 1) + m * b)%nat by lia.
  rewrite Nat.div_add by lia. rewrite Nat.div_small by lia. done.
Qed.

Lemma wrapU_byte (x : Z) : isByte x = true → toElem Uint8Array (Int x) = x.
Proof. unfold isByte, inRange, toElem, wrapU. simpl. intros H. apply Z.mod_small. lia. Qed.

Lemma flipByteOrder_lookup (data : list Z) (b m : nat) :
  (0 < b)%nat → length data = (m * b)%nat → Forall (λ z, isByte z = true) data →
  ∀ h r, (h < m)%nat → (r < b)%nat →
    Decoder.flipByteOrder data b !! (h * b + r)%nat = data !! (h * b + (b - 1 - r))%nat.
Proof.
  intros Hb Hlen Hbytes. unfold Decoder.flipByteOrder. rewrite Hlen.
  set (P := λ (H : nat) (ret : list Z),
    length ret = (m * b)%nat
    ∧ ∀ h r, (h < H)%nat → (r < b)%nat →
        ret !! (h * b + r)%nat = data !! (h * b + (b - 1 - r))%nat).
  assert (P m (for_range 0 (m * b) b (λ i ret,
            for_range 0 b 1 (λ j ret,
              Decoder.store Uint8Array ret (i + b - j - 1) (idx data (i + j))) ret)
            (replicate (m * b) 0))) as [_ H]; [|exact H].
  rewrite <-(groups_count m b Hb) at 1.
  apply (for_range_ind P).
  - split; [apply length_replicate|]. intros h r Hh. lia.
  - intros H ret HH [Hret Hdone]. rewrite groups_count in HH by done. rewrite Nat.add_0_l.
    set (Q := λ (J : nat) (ret : list Z),
      length ret = (m * b)%nat
      ∧ (∀ h r, (h < H)%nat → (r < b)%nat →
           ret !! (h * b + r)%nat = data !! (h * b + (b - 1 - r))%nat)
      ∧ ∀ r, (b - J ≤ r)%nat → (r < b)%nat →
           ret !! (H * b + r)%nat = data !! (H * b + (b - 1 - r))%nat).
    assert (Q b (for_range 0 b 1 (λ j ret,
              Decoder.store Uint8Array ret (H * b + b - j - 1) (idx data (H * b + j))) ret))
      as (Hlen' & Hold & Hnew).
    { replace b with ((b - 0 + 1 - 1) / 1)%nat at 1 by (rewrite Nat.div_1_r; lia).
      apply (for_range_ind Q).
      - split_and!; [done|done|]. intros r Hr1 Hr2. lia.
      - intros J ret' HJ (Hl & Ho & Hn). rewrite Nat.div_1_r in HJ.
        rewrite Nat.add_0_l, Nat.mul_1_r.
        assert (H * b + J < length data)%nat as Hin by (rewrite Hlen; nia).
        destruct (lookup_lt_is_Some_2 data _ Hin) as [x Hx].
        unfold Decoder.store, idx. rewrite Hx. cbn [fmap option_fmap option_map].
        rewrite toNumber_Some.
        rewrite wrapU_byte by (eapply (proj1 (Forall_lookup _ _) Hbytes); exact Hx).
        split_and!.
        + by rewrite length_insert.
        + intros h r Hh Hr. rewrite list_lookup_insert_ne by nia. by apply Ho.
        + intros r Hr1 Hr2. destruct (decide (r = b - J - 1)%nat) as [->|Hne].
          * replace (H * b + (b - J - 1))%nat with (H * b + b - J - 1)%nat by lia.
            rewrite list_lookup_insert_eq by (rewrite Hl; nia).
            rewrite <-Hx. f_equal. lia.
          * rewrite list_lookup_insert_ne by lia. apply Hn; lia. }
    split; [done|]. intros h r Hh Hr.
    destruct (decide (h = H)) as [->|Hne].
    + apply Hnew; lia.
    + apply Hold; lia.
Qed.

Lemma view_host (data : list Z) (byteSize : nat) :
  (0 < byteSize)%nat → Forall (λ z, isByte z = true) data →
  Decoder.view false [] data [] byteSize = Decoder.view true [] data [] byteSize.
Proof.
  intros Hb Hbytes. unfold Decoder.view, Decoder.words. rewrite app_nil_l, app_nil_r.
  rewrite flipByteOrder_length.
  destruct (Nat.eqb_spec (length data mod byteSize) 0) as [Hmod|]; [|done].
  f_equal. set (m := (length data / byteSize)%nat).
  assert (length data = (m * byteSize)%nat) as Hlen.
  { rewrite (Nat.div_mod_eq (length data) byteSize) at 1. fold m. lia. }
  apply list_fmap_ext. intros i h Hh. apply lookup_seq in Hh as [-> Hh]. simpl. f_equal.
  apply list_eq. intros r.
  destruct (decide (r < byteSize)%nat) as [Hr|Hr].
  - rewrite reverse_lookup by (rewrite length_take, length_drop, flipByteOrder_length; nia).
    rewrite length_take, length_drop, flipByteOrder_length.
    replace (byteSize `min` (length data - i * byteSize))%nat with byteSize by nia.
    rewrite !lookup_take_lt by lia. rewrite !lookup_drop.
    rewrite (flipByteOrder_lookup data byteSize m) by (done || lia).
    f_equal. lia.
  - rewrite !(proj2 (lookup_ge_None _ _)); [done|..].
    + rewrite length_take. lia.
    + rewrite length_reverse, length_take. lia.
Qed.

Lemma view_length (host : bool) (before data after : list Z) (byteSize : nat) :
  let n := if host then (length before + length data + length after)%nat else length data in
  match Decoder.view host before data after byteSize with
  | Ok w => (n mod byteSize = 0)%nat ∧ length w = (n / byteSize)%nat
  | Throw e => e = RangeError ∧ (n mod byteSize ≠ 0)%nat
  | Unmodelled => False
  end.
Proof.
  unfold Decoder.view, Decoder.words. destruct host; cbv zeta.
  - rewrite !length_app, Nat.add_assoc.
    destruct (Nat.eqb_spec ((length before + length data + length after) mod byteSize) 0);
      [|done].
    by rewrite length_fmap, length_seq.
  - rewrite flipByteOrder_length.
    destruct (Nat.eqb_spec (length data mod byteSize) 0); [|done].
    by rewrite length_fmap, length_seq.
Qed.

(** X5: a ByteArray step with one of the eight type codes, applied to a
    Uint8Array, reads a number n of bytes that depends on the type and on
    the host: the array itself for Uint8 (the step returns its input); from
    the offset of the array to the end of its buffer for Int8; for the
    wider types the whole buffer of the array on a little-endian host, but
    only the array on a big-endian host. The step returns a typed array of
    the kind of the type code with n / size elements when the element size
    divides n, and throws a RangeError when it does not; it never returns
    undefined. For a Uint8Array that spans its buffer n is its length on
    every host. *)
Theorem byteArray_element_count (host : bool) (before bytes after : list Z) (type : Z)
    (size : nat) :
  elementSize type = Some size →
  let count (n : nat) (step : Result (option Arr)) :=
    match step with
    | Ok (Some a) =>
        (n mod size = 0)%nat ∧ Arr_length a = (n / size)%nat
        ∧ Encoding.getDataType a = Ok type
    | Ok None => False
    | Throw e => e = RangeError ∧ (n mod size ≠ 0)%nat
    | Unmodelled => False
    end in
  count (bytesRead host type (length before) (length bytes) (length after))
        (Decoder.decodeStep host (Some (Uint8View before bytes after)) (ByteArray type))
  ∧ count (length bytes)
          (Decoder.decodeStep host (Some (IntArr Uint8Array bytes)) (ByteArray type)).
Proof.
  unfold elementSize, bytesRead. cbn [Decoder.decodeStep].
  destruct type as [|p|p]; try done; do 6 (try destruct p as [p|p|]; try done).
  all: intros [= <-]; cbv zeta; cbn [Decoder.onBytes Z.eqb Pos.eqb].
  all: unfold Decoder.int16, Decoder.uint16, Decoder.int32, Decoder.uint32,
      Decoder.float32, Decoder.float64, Decoder.int8.
  all: split.
  all: try match goal with |- context [Decoder.view ?h ?b ?d ?a ?s] =>
         pose proof (view_length h b d a s) as H; cbv zeta in H;
         destruct (Decoder.view h b d a s) as [w| |];
         [destruct H as [H1 H2]; destruct host; simpl in *;
          rewrite ?length_fmap, ?Nat.add_0_r in *; done
         |destruct host; simpl in *; by rewrite ?Nat.add_0_r in *|done] end.
  all: cbn [Result_map Arr_length Encoding.getDataType Encoding.IntDataType];
    rewrite ?length_fmap, ?length_app, ?app_nil_r, ?Nat.div_1_r, ?Nat.mod_1_r; done.
Qed.

Lemma byteArray_element_count_witness :
  let count (n : nat) (step : Result (option Arr)) :=
    match step with
    | Ok (Some a) =>
        (n mod 2 = 0)%nat ∧ Arr_length a = (n / 2)%nat ∧ Encoding.getDataType a = Ok 2
    | Ok None => False
    | Throw e => e = RangeError ∧ (n mod 2 ≠ 0)%nat
    | Unmodelled => False
    end in
  count (bytesRead true 2 (length [1]) (length [2; 3]) (length [4]))
        (Decoder.decodeStep true (Some (Uint8View [1] [2; 3] [4])) (ByteArray 2))
  ∧ count (length [2; 3])
          (Decoder.decodeStep true (Some (IntArr Uint8Array [2; 3])) (ByteArray 2)).
Proof. exact (byteArray_element_count true [1] [2; 3] [4] 2 2 eq_refl). Defined.

(** ** Invariants of the pipeline *)

Lemma Encoding_nested_ind (P : Encoding → Prop) :
  (∀ type, P (ByteArray type)) →
  (∀ factor srcType, P (FixedPoint factor srcType)) →
  (∀ min max numSteps srcType, P (IntervalQuantization min max numSteps srcType)) →
  (∀ srcType srcSize, P (RunLength srcType srcSize)) →
  (∀ origin srcType, P (Delta origin srcType)) →
  (∀ byteCount isUnsigned srcSize, P (IntegerPacking byteCount isUnsigned srcSize)) →
  (∀ dataEncoding stringData offsetEncoding offsets,
     Forall P dataEncoding → Forall P offsetEncoding →
     P (StringArray dataEncoding stringData offsetEncoding offsets)) →
  (∀ kind, P (OtherKind kind)) →
  ∀ encoding, P encoding.
Proof.
  intros HB HF HI HR HD HP HS HO. fix IH 1.
  intros [| | | | | |de s oe offs|];
    [apply HB|apply HF|apply HI|apply HR|apply HD|apply HP| |apply HO].
  apply HS.
  - induction de as [|e de IHde]; constructor; [apply IH|apply IHde].
  - induction oe as [|e oe IHoe]; constructor; [apply IH|apply IHoe].
Qed.

Lemma decodeStep_StringArray (host : bool) (data : option Arr) de s oe offs :
  Decoder.decodeStep host data (StringArray de s oe offs)
  = Some <$$> Decoder.stringArray (Decoder.decodeFrom host) data de s oe offs.
Proof. reflexivity. Qed.

Lemma littleEndian_bound (bytes : list Z) :
  Forall (λ z, isByte z = true) bytes →
  0 <= Decoder.littleEndian bytes < 256 ^ Z.of_nat (length bytes).
Proof.
  induction 1 as [|b bytes Hb _ IH]; [simpl; lia|].
  cbn [Decoder.littleEndian foldr length]. fold (Decoder.littleEndian bytes).
  rewrite Nat2Z.inj_succ, Z.pow_succ_r by lia.
  unfold isByte, inRange in Hb. lia.
Qed.

Lemma words_bound (host : bool) (byteSize : nat) (buffer w : list Z) :
  Forall (λ z, isByte z = true) buffer → Decoder.words host byteSize buffer = Ok w →
  Forall (λ z, 0 <= z < 256 ^ Z.of_nat byteSize) w.
Proof.
  intros Hbytes. unfold Decoder.words.
  destruct (Nat.eqb_spec (length buffer mod byteSize) 0) as [Hmod|]; [|done].
  intros [= <-]. apply Forall_fmap, Forall_forall. intros h Hh. simpl.
  apply elem_of_seq in Hh.
  set (group := take byteSize (drop (h * byteSize) buffer)).
  assert (length group = byteSize) as Hlen.
  { unfold group. rewrite length_take, length_drop.
    pose proof (Nat.div_mod_eq (length buffer) byteSize). nia. }
  assert (Forall (λ z, isByte z = true) group) as Hgroup
    by (by apply Forall_take, Forall_drop).
  destruct host.
  - pose proof (littleEndian_bound group Hgroup) as H. by rewrite Hlen in H.
  - pose proof (littleEndian_bound (reverse group) (proj2 (Forall_reverse _ _) Hgroup)) as H.
    by rewrite length_reverse, Hlen in H.
Qed.

Lemma view_bound (host : bool) (data w : list Z) (byteSize : nat) :
  Forall (λ z, isByte z = true) data → Decoder.view host [] data [] byteSize = Ok w →
  Forall (λ z, 0 <= z < 256 ^ Z.of_nat byteSize) w.
Proof.
  intros Hbytes. unfold Decoder.view. rewrite app_nil_l, app_nil_r. destruct host.
  - by apply words_bound.
  - apply words_bound, flipByteOrder_bytes.
Qed.

Lemma wellFormed_bytes (data : option Arr) (before bytes after : list Z) :
  wellFormedU data = true →
  data = Some (IntArr Uint8Array bytes) ∧ before = [] ∧ after = []
  ∨ data = Some (Uint8View before bytes after) →
  before = [] ∧ after = [] ∧ Forall (λ z, isByte z = true) bytes.
Proof.
  intros Hwf [(-> & -> & ->)| ->]; simpl in Hwf.
  - split_and!; [done..|]. by apply forallb_Forall.
  - destruct before, after; try done. split_and!; [done..|]. by apply forallb_Forall.
Qed.

Lemma onBytes_Ok (data : option Arr) f out :
  Decoder.onBytes data f = Ok out →
  ∃ before bytes after o,
    (data = Some (IntArr Uint8Array bytes) ∧ before = [] ∧ after = []
     ∨ data = Some (Uint8View before bytes after))
    ∧ f before bytes after = Ok o ∧ out = Some o.
Proof.
  unfold Decoder.onBytes. destruct data as [[[] bytes| | |before bytes after]|]; try done.
  - destruct (f [] bytes []) as [o| |] eqn:Hf; try done. intros [= <-].
    exists [], bytes, [], o. split_and!; [by left|done..].
  - destruct (f before bytes after) as [o| |] eqn:Hf; try done. intros [= <-].
    exists before, bytes, after, o. split_and!; [by right|done..].
Qed.

Lemma onInts_Ok (data : option Arr) f out :
  Decoder.onInts data f = Ok out → ∃ elems o, f elems = Ok o ∧ out = Some o.
Proof.
  unfold Decoder.onInts. destruct data as [[k elems| | |before elems after]|]; try done.
  all: destruct (f elems) as [o| |] eqn:Hf; try done; intros [= <-]; by exists elems, o.
Qed.

Lemma stringArray_Ok decode data de s oe offs a :
  Decoder.stringArray decode data de s oe offs = Ok a → ∃ elems, a = Array elems.
Proof.
  unfold Decoder.stringArray.
  destruct (decode oe _) as [o| |]; try done. cbn [mbind Result_bind].
  destruct (decode de data) as [i| |]; try done. cbn [mbind Result_bind].
  destruct i as [[]|]; try done.
  all: destruct o as [[]|]; try done.
  all: match goal with |- context [Decoder.stringArrayLoop ?a ?b ?c ?d ?e ?f] =>
         destruct (Decoder.stringArrayLoop a b c d e f) as [r| |] end; try done.
  all: intros [= <-]; by eexists.
Qed.

Lemma view_Ok_wrapS host data byteSize f k :
  (∀ z, inRange k (f z) = true) →
  ∀ out, (w ← Decoder.view host [] data [] byteSize; Ok (IntArr k (f <$> w))) = Ok out →
  wellFormed out = true.
Proof.
  intros Hf out. destruct (Decoder.view host [] data [] byteSize) as [w| |]; try done.
  intros [= <-]. simpl. apply forallb_Forall, Forall_fmap, Forall_forall. intros z _. apply Hf.
Qed.

Lemma view_Ok_unsigned host data byteSize k :
  Forall (λ z, isByte z = true) data →
  (∀ z, 0 <= z < 256 ^ Z.of_nat byteSize → inRange k z = true) →
  ∀ out, (w ← Decoder.view host [] data [] byteSize; Ok (IntArr k w)) = Ok out →
  wellFormed out = true.
Proof.
  intros Hbytes Hk out.
  destruct (Decoder.view host [] data [] byteSize) as [w| |] eqn:Hw; try done.
  intros [= <-]. simpl. apply forallb_Forall.
  eapply Forall_impl; [by eapply view_bound|]. intros z Hz. by apply Hk.
Qed.

Lemma view_Ok_float host data byteSize k (f : Z → float) :
  ∀ out, (w ← Decoder.view host [] data [] byteSize; Ok (FloatArr k (f <$> w))) = Ok out →
  wellFormed out = true.
Proof.
  intros out. destruct (Decoder.view host [] data [] byteSize) as [w| |]; try done.
  by intros [= <-].
Qed.

Lemma decodeStep_wellFormed (host : bool) (data out : option Arr) (encoding : Encoding) :
  wellFormedU data = true → Decoder.decodeStep host data encoding = Ok out →
  wellFormedU out = true.
Proof.
  intros Hwf.
  destruct encoding
    as [type|factor t|min max ns t|t size|origin t|bc u size|de s oe offs|];
    cbn [Decoder.decodeStep].
  - destruct type as [|p|p]; try done;
      do 6 (try destruct p as [p|p|]; try done).
    all: try (intros [= <-]; exact Hwf).
    all: intros (before & bytes & after & o & Hdata & Ho & ->)%onBytes_Ok.
    all: destruct (wellFormed_bytes _ _ _ _ Hwf Hdata) as (-> & -> & Hbytes);
      clear Hwf Hdata; rename Hbytes into Hwf.
    all: unfold Decoder.int16, Decoder.uint16, Decoder.int32, Decoder.uint32,
      Decoder.float32, Decoder.float64 in Ho.
    all: try (revert Ho; apply view_Ok_wrapS;
              first [apply inRange_wrapS16 | apply inRange_wrapS32]).
    all: try (revert Ho; apply view_Ok_unsigned;
              [exact Hwf | intros z Hz; vm_compute (256 ^ _) in Hz; unfold inRange; lia]).
    all: try (revert Ho; apply view_Ok_float).
    injection Ho as <-. simpl. apply forallb_Forall, Forall_fmap, Forall_forall.
    intros z _. apply inRange_wrapS8.
  - intros (elems & o & Ho & ->)%onInts_Ok. rewrite fixedPoint_outcome in Ho.
    by destruct (floatKindOf t); simplify_eq.
  - intros (elems & o & Ho & ->)%onInts_Ok. rewrite intervalQuantization_outcome in Ho.
    by destruct (floatKindOf t); simplify_eq.
  - destruct data as [a|].
    2:{ by destruct (Decoder.getIntArray t size). }
    intros (elems & o & Ho & ->)%onInts_Ok. rewrite runLength_outcome in Ho.
    destruct (intKindOf t) as [k'|]; [|done]. destruct (size <? 0); [done|].
    injection Ho as <-. simpl. apply forallb_Forall, Forall_resize; [apply inRange_0|].
    apply Forall_fmap, Forall_forall. intros z _. apply inRange_toElem.
  - intros (elems & o & Ho & ->)%onInts_Ok. rewrite delta_outcome in Ho.
    destruct (intKindOf t) as [k'|]; [|done]. injection Ho as <-.
    simpl. apply forallb_Forall, sums_inRange.
  - intros (elems & o & Ho & ->)%onInts_Ok. rewrite integerPacking_outcome in Ho.
    destruct (size <? 0); [done|]. injection Ho as <-.
    simpl. apply forallb_Forall, Forall_resize; [done|].
    apply Forall_fmap, Forall_forall. intros z _. apply inRange_wrapS32.
  - destruct (Decoder.stringArray _ data de s oe offs) as [a| |] eqn:Ha; try done.
    apply stringArray_Ok in Ha as [elems ->]. by intros [= <-].
  - by intros [= <-].
Qed.

Lemma decodeFrom_wellFormed (host : bool) (encoding : list Encoding) (data out : option Arr) :
  wellFormedU data = true → Decoder.decodeFrom host encoding data = Ok out →
  wellFormedU out = true.
Proof.
  intros Hwf. revert out. induction encoding as [|e encoding IH]; intros out; simpl.
  - by intros [= <-].
  - destruct (Decoder.decodeFrom host encoding data) as [current| |]; try done.
    cbn [mbind Result_bind]. apply decodeStep_wellFormed. by apply IH.
Qed.

Lemma onBytes_host (data : option Arr) (f g : list Z → list Z → list Z → Result Arr) :
  wellFormedU data = true →
  (∀ bytes, Forall (λ z, isByte z = true) bytes → f [] bytes [] = g [] bytes []) →
  Decoder.onBytes data f = Decoder.onBytes data g.
Proof.
  intros Hwf Hfg. unfold Decoder.onBytes.
  destruct data as [[[] bytes| | |[] bytes []]|]; try done.
  all: rewrite Hfg; [done|]; by apply forallb_Forall.
Qed.

Lemma decodeFrom_host_list (encoding : list Encoding) :
  Forall (λ e, bytesOK e = true → ∀ data, wellFormedU data = true →
               Decoder.decodeStep false data e = Decoder.decodeStep true data e) encoding →
  forallb bytesOK encoding = true →
  ∀ data, wellFormedU data = true →
    Decoder.decodeFrom false encoding data = Decoder.decodeFrom true encoding data.
Proof.
  induction 1 as [|e encoding He _ IH]; intros Hok data Hwf; [done|].
  simpl in Hok. apply andb_true_iff in Hok as [Hoke Hok]. simpl.
  rewrite (IH Hok data Hwf).
  destruct (Decoder.decodeFrom true encoding data) as [current| |] eqn:Hc; try done.
  cbn [mbind Result_bind]. apply He; [done|].
  by eapply decodeFrom_wellFormed.
Qed.

Lemma decodeStep_host (encoding : Encoding) :
  bytesOK encoding = true → ∀ data, wellFormedU data = true →
  Decoder.decodeStep false data encoding = Decoder.decodeStep true data encoding.
Proof.
  induction encoding as [type| | | | | |de s oe offs Hde Hoe|] using Encoding_nested_ind;
    intros Hok data Hwf; try reflexivity.
  - cbn [Decoder.decodeStep].
    destruct type as [|p|p]; try done; do 6 (try destruct p as [p|p|]; try done).
    all: apply onBytes_host; [done|]; intros bytes Hbytes.
    all: unfold Decoder.int16, Decoder.uint16, Decoder.int32, Decoder.uint32,
      Decoder.float32, Decoder.float64.
    all: try (rewrite view_host by (done || lia)); done.
  - rewrite !decodeStep_StringArray. simpl in Hok.
    apply andb_true_iff in Hok as [[Hokd Hoko]%andb_true_iff Hoffs].
    unfold Decoder.stringArray.
    rewrite (decodeFrom_host_list oe Hoe Hoko) by exact Hoffs.
    destruct (Decoder.decodeFrom true oe _) as [o| |]; try done. cbn [mbind Result_bind].
    by rewrite (decodeFrom_host_list de Hde Hokd).
Qed.

Lemma decodeFrom_host (encoding : list Encoding) (data : option Arr) :
  forallb bytesOK encoding = true → wellFormedU data = true →
  Decoder.decodeFrom false encoding data = Decoder.decodeFrom true encoding data.
Proof.
  intros Hok Hwf. apply decodeFrom_host_list; [|done..].
  apply Forall_forall. intros e _. apply decodeStep_host.
Qed.

Lemma decode_host (data : EncodedData.t) :
  bytesOfData data = true → Decoder.decode false data = Decoder.decode true data.
Proof.
  intros [Hok Hbytes]%andb_true_iff. unfold Decoder.decode. by apply decodeFrom_host.
Qed.

Lemma decodeFrom_app (host : bool) (first rest : list Encoding) (current : option Arr) :
  Decoder.decodeFrom host (first ++ rest) current
  = Decoder.decodeFrom host rest current ≫= Decoder.decodeFrom host first.
Proof.
  induction first as [|e first IH]; simpl.
  - by destruct (Decoder.decodeFrom host rest current).
  - rewrite IH. by destruct (Decoder.decodeFrom host rest current).
Qed.

(** X7: [decode] applies the encodings from the last to the first and
    keeps no other state: decoding with the encodings first ++ rest is
    decoding with rest and then running the steps of first on the result;
    with no encoding the bytes come back unchanged; an exception of the
    later encodings is the exception of the whole call. *)
Theorem decode_pipeline (host : bool) (first rest : list Encoding) (bytes : option Arr) :
  Decoder.decode host {| EncodedData.encoding := first ++ rest; EncodedData.data := bytes |}
  = (current ← Decoder.decode host {| EncodedData.encoding := rest; EncodedData.data := bytes |};
     Decoder.decodeFrom host first current)
  ∧ Decoder.decode host {| EncodedData.encoding := []; EncodedData.data := bytes |}
    = Ok bytes
  ∧ (∀ e, Decoder.decode host {| EncodedData.encoding := rest; EncodedData.data := bytes |}
          = Throw e →
          Decoder.decode host
            {| EncodedData.encoding := first ++ rest; EncodedData.data := bytes |}
          = Throw e).
Proof.
  unfold Decoder.decode. cbn [EncodedData.encoding EncodedData.data].
  split_and!; [apply decodeFrom_app|done|].
  intros e He. by rewrite decodeFrom_app, He.
Qed.

Lemma decode_pipeline_witness :
  Decoder.decode true
    {| EncodedData.encoding := [Delta 0 3] ++ [ByteArray 2];
       EncodedData.data := Some (IntArr Uint8Array [1]) |}
  = Throw RangeError.
Proof.
  destruct (decode_pipeline true [Delta 0 3] [ByteArray 2] (Some (IntArr Uint8Array [1])))
    as (_ & _ & H).
  exact (H RangeError eq_refl).
Defined.

(** X8: on an undefined input a ByteArray step of type Uint8 returns
    undefined without an error; every other ByteArray step and the steps
    FixedPoint, IntervalQuantization, Delta and IntegerPacking throw a
    TypeError, as does RunLength once its allocation succeeded. A
    StringArray step with no dataEncoding decodes its offsets first: an
    exception of that decoding is the exception of the step, and when the
    offsets decode, to whatever value, the step throws a TypeError. *)
Theorem decodeStep_undefined_input (host : bool) :
  Decoder.decodeStep host None (ByteArray 4) = Ok None
  ∧ (∀ type size, elementSize type = Some size → type ≠ 4 →
       Decoder.decodeStep host None (ByteArray type) = Throw TypeError)
  ∧ (∀ factor min max numSteps srcType origin byteCount isUnsigned srcSize,
       Decoder.decodeStep host None (FixedPoint factor srcType) = Throw TypeError
       ∧ Decoder.decodeStep host None (IntervalQuantization min max numSteps srcType)
         = Throw TypeError
       ∧ Decoder.decodeStep host None (Delta origin srcType) = Throw TypeError
       ∧ Decoder.decodeStep host None (IntegerPacking byteCount isUnsigned srcSize)
         = Throw TypeError)
  ∧ (∀ srcType srcSize, is_Some (intKindOf srcType) → 0 <= srcSize →
       Decoder.decodeStep host None (RunLength srcType srcSize) = Throw TypeError)
  ∧ (∀ stringData offsetEncoding offsets,
       Decoder.decodeStep host None (StringArray [] stringData offsetEncoding offsets)
       = match Decoder.decodeFrom host offsetEncoding (Some offsets) with
         | Ok _ => Throw TypeError
         | Throw e => Throw e
         | Unmodelled => Unmodelled
         end).
Proof.
  split_and!.
  - done.
  - intros type size. unfold elementSize. cbn [Decoder.decodeStep].
    destruct type as [|p|p]; try done; do 6 (try destruct p as [p|p|]; try done).
  - done.
  - intros srcType srcSize [k Hk] Hsize. cbn [Decoder.decodeStep].
    rewrite getIntArray_outcome, Hk. by destruct (Z.ltb_spec srcSize 0); [lia|].
  - intros stringData offsetEncoding offsets.
    rewrite decodeStep_StringArray. unfold Decoder.stringArray.
    by destruct (Decoder.decodeFrom host offsetEncoding (Some offsets)).
Qed.

Lemma decodeStep_undefined_input_witness :
  Decoder.decodeStep true None (ByteArray 33) = Throw TypeError
  ∧ Decoder.decodeStep true None (RunLength 3 2) = Throw TypeError.
Proof.
  destruct (decodeStep_undefined_input true) as (_ & H1 & _ & H2 & _). split.
  - apply (H1 33 8%nat eq_refl). lia.
  - apply H2; [by eexists|lia].
Defined.

(** ** StringArray *)

Lemma stringArrayLoop_entries (str : string) (o : list Z) (indices : list Z)
    (cache : gmap Z string) (w : list Val) (n : nat) :
  (∀ i v, cache !! i = Some v →
          v = Decoder.substring str (o !! Z.to_nat i) (o !! Z.to_nat (i + 1))) →
  Decoder.stringArrayLoop str (Some o) indices cache (resize n VUndefined w) (length w)
  = Ok (resize n VUndefined (w ++ (entry str o <$> indices))).
Proof.
  revert cache w. induction indices as [|i indices IH]; intros cache w Hcache; simpl.
  - by rewrite app_nil_r.
  - assert (∀ v, S (length w) = length (w ++ [v])) as Hlen
      by (intros v; rewrite length_app; simpl; lia).
    unfold entry at 1. destruct (i <? 0) eqn:Hi.
    + rewrite insert_resize_snoc, (Hlen VNull), IH by done. by rewrite <-app_assoc.
    + destruct (cache !! i) as [v|] eqn:Hv.
      * rewrite insert_resize_snoc, (Hlen (VString v)), IH by done.
        rewrite <-app_assoc. simpl. by rewrite (Hcache i v Hv).
      * set (v := Decoder.substring str (o !! Z.to_nat i) (o !! Z.to_nat (i + 1))).
        rewrite insert_resize_snoc, (Hlen (VString v)), IH; [by rewrite <-app_assoc|].
        intros i' v'. destruct (decide (i = i')) as [<-|Hne].
        -- rewrite lookup_insert_eq. by intros [= <-].
        -- rewrite lookup_insert_ne by done. apply Hcache.
Qed.

Lemma stringArrayLoop_no_offsets (str : string) (indices : list Z) (w : list Val) (n : nat) :
  Decoder.stringArrayLoop str None indices ∅ (resize n VUndefined w) (length w)
  = if forallb (λ i, i <? 0) indices
    then Ok (resize n VUndefined (w ++ replicate (length indices) VNull))
    else Throw TypeError.
Proof.
  revert w. induction indices as [|i indices IH]; intros w; simpl.
  - by rewrite app_nil_r.
  - destruct (i <? 0); [|done]. simpl.
    rewrite insert_resize_snoc.
    replace (S (length w)) with (length (w ++ [VNull])) by (rewrite length_app; simpl; lia).
    rewrite IH. by rewrite <-app_assoc.
Qed.

Lemma substring_prefix (s r : string) :
  String.substring 0 (String.length s) (s +:+ r) = s.
Proof.
  induction s as [|c s IH].
  - by destruct r.
  - change (String c (String.substring 0 (String.length s) (s +:+ r)) = String c s).
    by rewrite IH.
Qed.

Lemma substring_app (p s r : string) :
  String.substring (String.length p) (String.length s) (p +:+ s +:+ r) = s.
Proof. induction p as [|c p IH]; [exact (substring_prefix s r)|exact IH]. Qed.

Lemma length_app_string (p s : string) :
  String.length (p +:+ s) = (String.length p + String.length s)%nat.
Proof.
  induction p as [|c p IH]; [done|].
  change (S (String.length (p +:+ s)) = S (String.length p + String.length s)). by rewrite IH.
Qed.

Lemma app_assoc_string (p s r : string) : (p +:+ s) +:+ r = p +:+ s +:+ r.
Proof.
  induction p as [|c p IH]; [done|].
  change (String c ((p +:+ s) +:+ r) = String c (p +:+ s +:+ r)). by rewrite IH.
Qed.

Lemma offsetsFrom_head (start : Z) (strings : list string) :
  offsetsFrom start strings !! 0%nat = Some start.
Proof. by destruct strings. Qed.

Lemma pool_substring (strings : list string) (p : string) (i : nat) (s : string) :
  strings !! i = Some s →
  let offsets := offsetsFrom (Z.of_nat (String.length p)) strings in
  Decoder.substring (p +:+ pool strings) (offsets !! i) (offsets !! S i) = s.
Proof.
  revert p i. induction strings as [|s0 strings IH]; intros p i Hs; [done|].
  destruct i as [|i].
  - injection Hs as ->. cbn [offsetsFrom lookup list_lookup pool foldr].
    rewrite offsetsFrom_head. unfold Decoder.substring. cbn [default from_option id].
    rewrite !length_app_string.
    replace (Z.min (Z.min (Z.max (Z.of_nat (String.length p)) 0) _) _)
      with (Z.of_nat (String.length p)) by lia.
    replace (Z.max (Z.min (Z.max (Z.of_nat (String.length p)) 0) _) _ - Z.of_nat (String.length p))
      with (Z.of_nat (String.length s)) by lia.
    rewrite !Nat2Z.id. apply substring_app.
  - cbn [offsetsFrom lookup list_lookup pool foldr]. simpl in Hs.
    rewrite <-app_assoc_string.
    replace (Z.of_nat (String.length p) + Z.of_nat (String.length s0))
      with (Z.of_nat (String.length (p +:+ s0))) by (rewrite length_app_string; lia).
    by apply IH.
Qed.

Lemma substring_all (s : string) : String.substring 0 (String.length s) s = s.
Proof.
  induction s as [|c s IH]; [done|].
  change (String c (String.substring 0 (String.length s) s) = String c s). by rewrite IH.
Qed.

Lemma substring_undefined (str : string) : Decoder.substring str None None = str.
Proof.
  unfold Decoder.substring. cbn [default from_option id].
  replace (Z.min (Z.min (Z.max 0 0) _) _) with 0 by lia.
  replace (Z.max (Z.min (Z.max 0 0) _) _ - 0) with (Z.of_nat (String.length str)) by lia.
  rewrite Nat2Z.id. apply substring_all.
Qed.

Lemma stringArray_entries (host : bool) (data : option Arr) (dataEncoding : list Encoding)
    (stringData : string) (offsetEncoding : list Encoding) (offsets : Arr)
    (ai ao : Arr) (indices o : list Z) :
  Decoder.decodeFrom host dataEncoding data = Ok (Some ai) →
  intElements ai = Some indices →
  Decoder.decodeFrom host offsetEncoding (Some offsets) = Ok (Some ao) →
  intElements ao = Some o →
  Decoder.decodeStep host data (StringArray dataEncoding stringData offsetEncoding offsets)
  = Ok (Some (Array (entry stringData o <$> indices))).
Proof.
  intros Hi Hai Ho Hao. rewrite decodeStep_StringArray. unfold Decoder.stringArray.
  rewrite Ho, Hi. cbn [mbind Result_bind].
  pose proof (stringArrayLoop_entries stringData o indices ∅ [] (length indices)) as H.
  cbn [length app] in H. rewrite resize_nil in H.
  destruct ai; simplify_eq/=; destruct ao; simplify_eq/=.
  all: rewrite H by (intros i v; by rewrite lookup_empty).
  all: cbn [Result_map]; by rewrite resize_all_alt by (by rewrite length_fmap).
Qed.

(** X9: the memo object of [stringArray] does not change its result.
    When the indices decode to an integer array, the step returns an Array
    with one row per index, in order: null for a negative index, and for
    any other index i the substring of stringData from offsets[i] to
    offsets[i + 1], whether or not i occurred before. When the offsets
    decode to undefined, the step throws a TypeError at the first index
    that is not negative, and returns the nulls when there is none. *)
Theorem stringArray_rows (host : bool) (data : option Arr) (dataEncoding : list Encoding)
    (stringData : string) (offsetEncoding : list Encoding) (offsets : Arr)
    (ai : Arr) (indices : list Z) :
  Decoder.decodeFrom host dataEncoding data = Ok (Some ai) →
  intElements ai = Some indices →
  let step :=
    Decoder.decodeStep host data (StringArray dataEncoding stringData offsetEncoding offsets) in
  (∀ ao o,
     Decoder.decodeFrom host offsetEncoding (Some offsets) = Ok (Some ao) →
     intElements ao = Some o →
     step = Ok (Some (Array ((λ i, if i <? 0 then VNull
                                   else VString (Decoder.substring stringData
                                                   (o !! Z.to_nat i) (o !! Z.to_nat (i + 1))))
                             <$> indices))))
  ∧ (Decoder.decodeFrom host offsetEncoding (Some offsets) = Ok None →
     step = if forallb (λ i, i <? 0) indices
            then Ok (Some (Array (replicate (length indices) VNull)))
            else Throw TypeError).
Proof.
  intros Hi Hai step. unfold step. split.
  - intros ao o Ho Hao. exact (stringArray_entries _ _ _ _ _ _ _ _ _ _ Hi Hai Ho Hao).
  - intros Ho. rewrite decodeStep_StringArray. unfold Decoder.stringArray.
    rewrite Ho, Hi. cbn [mbind Result_bind].
    pose proof (stringArrayLoop_no_offsets stringData indices [] (length indices)) as H.
    cbn [length] in H. rewrite resize_nil in H.
    destruct ai; simplify_eq/=.
    all: rewrite H; destruct (forallb _ indices); [|done].
    all: cbn [app Result_map]; by rewrite resize_all_alt by (by rewrite length_replicate).
Qed.

Lemma stringArray_rows_witness :
  Decoder.decodeStep true (Some (IntArr Uint8Array [1; 0; 255; 1]))
    (StringArray [ByteArray 1] "foobar" [ByteArray 4] (IntArr Uint8Array [0; 3; 6]))
  = Ok (Some (Array [VString "bar"; VString "foo"; VNull; VString "bar"])).
Proof.
  exact (proj1 (stringArray_rows true (Some (IntArr Uint8Array [1; 0; 255; 1])) [ByteArray 1]
                  "foobar" [ByteArray 4] (IntArr Uint8Array [0; 3; 6])
                  (IntArr Int8Array [1; 0; -1; 1]) [1; 0; -1; 1] eq_refl eq_refl)
               (IntArr Uint8Array [0; 3; 6]) [0; 3; 6] eq_refl eq_refl).
Defined.

(** X10: [stringArray] inverts the layout that the comment on
    [Encoding.StringArray] describes. When stringData is the concatenation
    of a list of strings and the offsets decode to 0 followed by the ends
    of the strings, the row of an index i that is not negative is the i-th
    string of the list, and the row of a negative index is null. *)
Theorem stringArray_layout (host : bool) (data : option Arr) (dataEncoding : list Encoding)
    (offsetEncoding : list Encoding) (offsets : Arr) (strings : list string)
    (ai ao : Arr) (indices : list Z) :
  Decoder.decodeFrom host dataEncoding data = Ok (Some ai) →
  intElements ai = Some indices →
  Decoder.decodeFrom host offsetEncoding (Some offsets) = Ok (Some ao) →
  intElements ao = Some (offsetsFrom 0 strings) →
  ∃ rows,
    Decoder.decodeStep host data
      (StringArray dataEncoding (pool strings) offsetEncoding offsets)
    = Ok (Some (Array rows))
    ∧ length rows = length indices
    ∧ ∀ j i, indices !! j = Some i →
        (i < 0 → rows !! j = Some VNull)
        ∧ ∀ s, 0 <= i → strings !! Z.to_nat i = Some s → rows !! j = Some (VString s).
Proof.
  intros Hi Hai Ho Hao. eexists. split_and!.
  - by eapply stringArray_entries.
  - by rewrite length_fmap.
  - intros j i Hj. rewrite list_lookup_fmap, Hj. cbn [fmap option_fmap option_map].
    unfold entry. split.
    + intros Hneg. by destruct (Z.ltb_spec i 0); [|lia].
    + intros s Hpos Hs. destruct (Z.ltb_spec i 0); [lia|]. do 2 f_equal.
      replace (Z.to_nat (i + 1)) with (S (Z.to_nat i)) by lia.
      exact (pool_substring strings "" (Z.to_nat i) s Hs).
Qed.

Lemma stringArray_layout_witness :
  ∃ rows,
    Decoder.decodeStep true (Some (IntArr Uint8Array [2; 0; 255; 1]))
      (StringArray [ByteArray 1] (pool ["12"; "345"; "6"]) [ByteArray 4]
         (IntArr Uint8Array [0; 2; 5; 6]))
    = Ok (Some (Array rows))
    ∧ rows !! 0%nat = Some (VString "6") ∧ rows !! 2%nat = Some VNull.
Proof.
  destruct (stringArray_layout true (Some (IntArr Uint8Array [2; 0; 255; 1])) [ByteArray 1]
              [ByteArray 4] (IntArr Uint8Array [0; 2; 5; 6]) ["12"; "345"; "6"]
              (IntArr Int8Array [2; 0; -1; 1]) (IntArr Uint8Array [0; 2; 5; 6])
              [2; 0; -1; 1] eq_refl eq_refl eq_refl eq_refl) as (rows & Hrows & _ & Hcell).
  exists rows. split_and!.
  - exact Hrows.
  - exact (proj2 (Hcell 0%nat 2 eq_refl) "6" ltac:(lia) eq_refl).
  - exact (proj1 (Hcell 2%nat (-1) eq_refl) ltac:(lia)).
Defined.

(** X11: an index at or past the length of the offsets array is not an
    error: both of its offsets read undefined, and its row is the whole of
    stringData. *)
Theorem stringArray_index_past_offsets (host : bool) (data : option Arr)
    (dataEncoding : list Encoding) (stringData : string) (offsetEncoding : list Encoding)
    (offsets : Arr) (ai ao : Arr) (indices o : list Z) :
  Decoder.decodeFrom host dataEncoding data = Ok (Some ai) →
  intElements ai = Some indices →
  Decoder.decodeFrom host offsetEncoding (Some offsets) = Ok (Some ao) →
  intElements ao = Some o →
  ∃ rows,
    Decoder.decodeStep host data (StringArray dataEncoding stringData offsetEncoding offsets)
    = Ok (Some (Array rows))
    ∧ ∀ j i, indices !! j = Some i → Z.of_nat (length o) <= i →
        rows !! j = Some (VString stringData).
Proof.
  intros Hi Hai Ho Hao. eexists. split.
  - by eapply stringArray_entries.
  - intros j i Hj Hpast. rewrite list_lookup_fmap, Hj. cbn [fmap option_fmap option_map].
    unfold entry. destruct (Z.ltb_spec i 0); [lia|].
    rewrite !(proj2 (lookup_ge_None _ _)) by lia. by rewrite substring_undefined.
Qed.

Lemma stringArray_index_past_offsets_witness :
  ∃ rows,
    Decoder.decodeStep true (Some (IntArr Uint8Array [7]))
      (StringArray [ByteArray 4] "foobar" [ByteArray 4] (IntArr Uint8Array [0; 3; 6]))
    = Ok (Some (Array rows))
    ∧ rows !! 0%nat = Some (VString "foobar").
Proof.
  destruct (stringArray_index_past_offsets true (Some (IntArr Uint8Array [7])) [ByteArray 4]
              "foobar" [ByteArray 4] (IntArr Uint8Array [0; 3; 6])
              (IntArr Uint8Array [7]) (IntArr Uint8Array [0; 3; 6]) [7] [0; 3; 6]
              eq_refl eq_refl eq_refl eq_refl) as (rows & Hrows & Hcell).
  exists rows. split; [exact Hrows|].
  exact (Hcell 0%nat 7 eq_refl ltac:(simpl; lia)).
Defined.

(** ** Maps filled by a loop of [set] calls

    The constructors of [Category] and [DataBlock] and the rows of
    [toJSON] fill a map in the order of a list; a key then holds the value
    of the last element of the list that has this key. *)

Section MapFill.
Context {A B : Type} (key : A → string) (val : A → B).

Lemma foldl_insert_last (l : list A) (m : gmap string B) (k : string) :
  foldl (λ m x, <[key x := val x]> m) m l !! k
  = from_option (Some ∘ val) (m !! k) (last (filter (λ x, key x = k) l)).
Proof.
  revert m. induction l as [|x l IH]; intros m; [done|].
  cbn [foldl]. rewrite IH, filter_cons.
  destruct (decide (key x = k)) as [Hk|Hk].
  - rewrite last_cons. destruct (last (filter _ l)); [done|].
    simpl. by rewrite Hk, lookup_insert_eq.
  - destruct (last (filter _ l)); [done|]. simpl. by rewrite lookup_insert_ne.
Qed.

End MapFill.

Lemma filter_fmap_key {A B} (f : A → B) (key : B → string) (k : string) (l : list A) :
  filter (λ y, key y = k) (f <$> l) = f <$> filter (λ x, key (f x) = k) l.
Proof.
  induction l as [|x l IH]; [done|].
  rewrite fmap_cons, !filter_cons, IH. by destruct (decide (key (f x) = k)).
Qed.

Lemma encodedColumns_last (data : EncodedCategory.t) (name : string) :
  Category.encodedColumns (Category.new data) !! name
  = last (filter (λ c, c.(EncodedColumn.name) = name) data.(EncodedCategory.columns)).
Proof.
  rewrite new_encodedColumns.
  rewrite (foldl_insert_last EncodedColumn.name id (EncodedCategory.columns data) ∅ name).
  rewrite lookup_empty. by destruct (last _).
Qed.

Lemma new_name (data : EncodedCategory.t) :
  Category.name (Category.new data) = data.(EncodedCategory.name).
Proof. unfold Category.new. by rewrite new_fold. Qed.

Lemma categoryMap_last (data : EncodedDataBlock.t) (name : string) :
  DataBlock.getCategory (DataBlock.new data) name
  = Category.new <$>
      last (filter (λ c, c.(EncodedCategory.name) = name) data.(EncodedDataBlock.categories)).
Proof.
  unfold DataBlock.getCategory, DataBlock.new. cbn [DataBlock.categoryMap].
  rewrite (foldl_insert_last Category.name id). rewrite lookup_empty.
  rewrite (filter_fmap_key Category.new Category.name), fmap_last.
  rewrite (list_filter_iff _ (λ c, EncodedCategory.name c = name))
    by (intros c; by rewrite new_name).
  by destruct (last _).
Qed.

(** X12: as far as the decoder is used within its signatures, the
    result of decoding does not depend on the byte order of the host. For
    every encoded data record whose Uint8Arrays (its data and the offsets
    of its StringArray descriptors, nested ones included) span their
    buffers and hold bytes, and whose decoding on a little-endian host
    gives every step an input of the type that the step declares, [decode]
    returns the same value, or throws the same exception, on a big-endian
    host (where [view] flips the bytes of every element) as on the
    little-endian host; hence so do [wrapColumn] and [getColumn]. It does
    depend on the host for a Uint8Array that is a window on a larger
    buffer, which a little-endian host reads whole. *)
Theorem decode_host_independent :
  (∀ data, bytesOfData data = true → Decoder.decode true data ≠ Unmodelled →
     Decoder.decode false data = Decoder.decode true data)
  ∧ (∀ column, bytesOfColumn column = true → wrapColumn true column ≠ Unmodelled →
       wrapColumn false column = wrapColumn true column)
  ∧ (∀ data name,
       forallb bytesOfColumn data.(EncodedCategory.columns) = true →
       Category.getColumn true (Category.new data) name ≠ Unmodelled →
       Category.getColumn false (Category.new data) name
       = Category.getColumn true (Category.new data) name)
  ∧ Decoder.decode true
      {| EncodedData.encoding := [ByteArray 2];
         EncodedData.data := Some (Uint8View [0x12] [0x34; 0x56] [0x78]) |}
    = Ok (Some (IntArr Int16Array [0x3412; 0x7856]))
  ∧ Decoder.decode false
      {| EncodedData.encoding := [ByteArray 2];
         EncodedData.data := Some (Uint8View [0x12] [0x34; 0x56] [0x78]) |}
    = Ok (Some (IntArr Int16Array [0x5634])).
Proof.
  assert (∀ column, bytesOfColumn column = true →
                    wrapColumn false column = wrapColumn true column) as Hwrap.
  { intros column [Hdata Hmask]%andb_true_iff. unfold wrapColumn.
    rewrite (decode_host _ Hdata).
    destruct (EncodedColumn.mask column) as [mask|]; [|done].
    by rewrite (decode_host mask Hmask). }
  split_and!; [intros data Hdata _; by apply decode_host
              |intros column Hcolumn _; by apply Hwrap| |reflexivity..].
  intros data name Hcols _. unfold Category.getColumn. rewrite encodedColumns_last.
  destruct (last _) as [w|] eqn:Hlast; [|done].
  apply last_Some_elem_of, list_elem_of_filter in Hlast as [_ Hw].
  apply Hwrap. rewrite forallb_Forall, Forall_forall in Hcols. by apply Hcols.
Qed.

Lemma decode_host_independent_witness :
  Category.getColumn false (Category.new sampleCategory) "id"
  = Category.getColumn true (Category.new sampleCategory) "id".
Proof.
  destruct decode_host_independent as (_ & _ & H & _).
  apply (H sampleCategory "id" eq_refl). vm_compute. discriminate.
Defined.

(** ** [wrapColumn] and the lookups by name *)

(** X13: the class that [wrapColumn] picks reflects what was decoded.
    A column that it returns holds the decoded data of the encoded column;
    it is one of the two numeric classes exactly when that data is a typed
    array with at least one element; it is one of the two masked classes
    exactly when the encoded column has a mask that decodes to an array. *)
Theorem wrapColumn_class (host : bool) (column : EncodedColumn.t) (c : MaterializedColumn) :
  wrapColumn host column = Ok (Materialized c) →
  Decoder.decode host column.(EncodedColumn.data) = Ok (Some (dataOf c))
  ∧ match c with
    | NumericColumn data | MaskedNumericColumn data _ => isNumericData data = true
    | StringColumn data | MaskedStringColumn data _ => isNumericData data = false
    end
  ∧ match c with
    | MaskedNumericColumn _ mask | MaskedStringColumn _ mask =>
        ∃ e, column.(EncodedColumn.mask) = Some e ∧ Decoder.decode host e = Ok (Some mask)
    | NumericColumn _ | StringColumn _ =>
        column.(EncodedColumn.mask) = None
        ∨ ∃ e, column.(EncodedColumn.mask) = Some e ∧ Decoder.decode host e = Ok None
    end.
Proof.
  unfold wrapColumn. destruct (EncodedData.data (EncodedColumn.data column)); [|done].
  destruct (Decoder.decode host (EncodedColumn.data column)) as [[data|]| |]; try done;
    cbn [mbind Result_bind].
  2:{ by destruct (match EncodedColumn.mask column with
                   | Some mask => Decoder.decode host mask | None => Ok None end). }
  destruct (EncodedColumn.mask column) as [e|].
  - destruct (Decoder.decode host e) as [[mask|]| |] eqn:He; try done;
      cbn [mbind Result_bind].
    + destruct (isNumericData data) eqn:Hnum; intros [= <-]; (split_and!; [done..|by exists e]).
    + destruct (isNumericData data) eqn:Hnum; intros [= <-];
        (split_and!; [done..|right; by exists e]).
  - cbn [mbind Result_bind].
    destruct (isNumericData data) eqn:Hnum; intros [= <-]; (split_and!; [done..|by left]).
Qed.

Lemma wrapColumn_class_witness :
  Decoder.decode true uint32Column.(EncodedColumn.data)
  = Ok (Some (IntArr Uint32Array [4294967295])).
Proof.
  exact (proj1 (wrapColumn_class true uint32Column
                  (NumericColumn (IntArr Uint32Array [4294967295])) eq_refl)).
Defined.

(** X14: a column whose data decode to an array without elements, a
    typed array included, and that has no mask, is wrapped as a
    StringColumn: on every row getString returns undefined and getInteger
    throws a TypeError, where a NumericColumn over the same data would
    return 0. *)
Theorem wrapColumn_empty_typed_array (fastParseInt : string → Z → Z → Num) (host : bool)
    (column : EncodedColumn.t) (data : Arr) :
  column.(EncodedColumn.data).(EncodedData.data) ≠ None →
  column.(EncodedColumn.mask) = None →
  Decoder.decode host column.(EncodedColumn.data) = Ok (Some data) →
  Arr_length data = 0%nat →
  wrapColumn host column = Ok (Materialized (StringColumn data))
  ∧ ∀ row, StringColumn.getString data row = VUndefined
           ∧ StringColumn.getInteger fastParseInt data row = Throw TypeError
           ∧ NumericColumn.getInteger data row = Ok (VNum (Int 0)).
Proof.
  intros Hbuf Hmask Hdata Hlen. unfold wrapColumn. rewrite Hdata, Hmask.
  destruct (EncodedData.data (EncodedColumn.data column)); [|done]. cbn [mbind Result_bind].
  assert (isNumericData data = false ∧ ∀ row, at_row data row = VUndefined) as [-> Hrow].
  { destruct data as [k [|x elems]|k [|x elems]|[|x elems]|before [|x elems] after];
      try done; split; try done; by intros [|row]. }
  split; [done|]. intros row.
  unfold StringColumn.getString, StringColumn.getInteger, NumericColumn.getInteger.
  by rewrite Hrow.
Qed.

Lemma wrapColumn_empty_typed_array_witness :
  wrapColumn true
    {| EncodedColumn.name := "n";
       EncodedColumn.data :=
         {| EncodedData.encoding := [ByteArray 3];
            EncodedData.data := Some (IntArr Uint8Array []) |};
       EncodedColumn.mask := None |}
  = Ok (Materialized (StringColumn (IntArr Int32Array []))).
Proof.
  refine (proj1 (wrapColumn_empty_typed_array specParseInt true
    {| EncodedColumn.name := "n";
       EncodedColumn.data :=
         {| EncodedData.encoding := [ByteArray 3];
            EncodedData.data := Some (IntArr Uint8Array []) |};
       EncodedColumn.mask := None |} (IntArr Int32Array []) _ eq_refl eq_refl eq_refl)).
  simpl. congruence.
Defined.

(** X20: the presence of a value follows the mask, as the comment on
    [EncodedColumn.mask] says. A column that [wrapColumn] returns for an
    encoded column without a mask reports every row Present, rows past the
    end of the data included; a column wrapped with a mask reports for a
    row the element of the decoded mask at that row, which is undefined
    past the end of the mask, so that [toJSON] writes '?' there. *)
Theorem presence_follows_mask (numberToString : Num → string) (host : bool)
    (column : EncodedColumn.t) (c : MaterializedColumn) :
  wrapColumn host column = Ok (Materialized c) →
  (column.(EncodedColumn.mask) = None →
   ∀ row, getValuePresence c row = VNum (Int ValuePresence.Present)
          ∧ cell numberToString (Materialized c) row = getString numberToString c row)
  ∧ (∀ e mask, column.(EncodedColumn.mask) = Some e →
       Decoder.decode host e = Ok (Some mask) →
       ∀ row, getValuePresence c row = at_row mask row
              ∧ ((Arr_length mask ≤ row)%nat →
                 getValuePresence c row = VUndefined
                 ∧ cell numberToString (Materialized c) row = VString "?")).
Proof.
  unfold wrapColumn. destruct (EncodedData.data (EncodedColumn.data column)); [|done].
  destruct (Decoder.decode host (EncodedColumn.data column)) as [[data|]| |]; try done;
    cbn [mbind Result_bind].
  2:{ by destruct (match EncodedColumn.mask column with
                   | Some mask => Decoder.decode host mask | None => Ok None end). }
  destruct (EncodedColumn.mask column) as [e|].
  - destruct (Decoder.decode host e) as [[mask|]| |] eqn:He; try done;
      cbn [mbind Result_bind].
    + intros Hc. split; [done|]. intros e' mask' [= <-] Hmask. rewrite He in Hmask.
      injection Hmask as <-.
      assert (∀ row, (Arr_length mask ≤ row)%nat → at_row mask row = VUndefined) as Hpast.
      { intros row Hrow.
        destruct mask as [k elems|k elems|elems|before elems after]; simpl in Hrow |- *;
          by rewrite (proj2 (lookup_ge_None _ _) Hrow). }
      destruct (isNumericData data); injection Hc as <-; intros row;
        (split; [done|]); intros Hrow; unfold cell; simpl;
        unfold MaskedNumericColumn.getValuePresence, MaskedStringColumn.getValuePresence;
        by rewrite (Hpast row Hrow).
    + intros Hc. split; [done|]. intros e' mask' [= <-] Hmask. by rewrite He in Hmask.
  - cbn [mbind Result_bind]. intros Hc. split; [|done]. intros _ row.
    destruct (isNumericData data); injection Hc as <-; by split.
Qed.

Lemma presence_follows_mask_witness :
  getValuePresence (NumericColumn (IntArr Uint32Array [4294967295])) 5
  = VNum (Int ValuePresence.Present).
Proof.
  exact (proj1 (proj1 (presence_follows_mask (λ _, "n") true uint32Column
                         (NumericColumn (IntArr Uint32Array [4294967295])) eq_refl)
                  eq_refl 5%nat)).
Defined.

(** X15: [getColumn] of a new Category resolves a name to the last
    encoded column declared with that name, and to the sentinel when there
    is none; when the names of the encoded columns are distinct, every
    encoded column is the one that getColumn wraps for its name. *)
Theorem getColumn_last_declared (host : bool) (data : EncodedCategory.t) :
  (∀ name,
     Category.getColumn host (Category.new data) name
     = match last (filter (λ c, c.(EncodedColumn.name) = name) data.(EncodedCategory.columns))
       with
       | Some w => wrapColumn host w
       | None => Ok UndefinedColumn
       end)
  ∧ (NoDup (EncodedColumn.name <$> data.(EncodedCategory.columns)) →
     ∀ c, c ∈ data.(EncodedCategory.columns) →
       Category.getColumn host (Category.new data) c.(EncodedColumn.name) = wrapColumn host c).
Proof.
  split.
  - intros name. unfold Category.getColumn. by rewrite encodedColumns_last.
  - intros Hnd c Hc. unfold Category.getColumn.
    by rewrite new_encodedColumns, (register_lookup_NoDup _ _ c Hnd Hc).
Qed.

Lemma getColumn_last_declared_witness :
  Category.getColumn true (Category.new sampleCategory) "id" = wrapColumn true uint32Column.
Proof.
  refine (proj2 (getColumn_last_declared true sampleCategory) _ uint32Column _).
  - apply (bool_decide_unpack
             (NoDup (EncodedColumn.name <$> sampleCategory.(EncodedCategory.columns)))).
    vm_compute. exact I.
  - apply list_elem_of_further, list_elem_of_here.
Defined.

(** X16: the constructor of Category keeps the names of the encoded
    columns in their order, duplicates included; columnCount is the length
    of columnNames; name and rowCount are copied; the keys of the map of
    encoded columns are exactly the column names, and the column stored
    under a key carries that name. *)
Theorem Category_new_invariants (data : EncodedCategory.t) :
  let this := Category.new data in
  Category.columnNames this = EncodedColumn.name <$> data.(EncodedCategory.columns)
  ∧ this.(Category.columnCount) = length (Category.columnNames this)
  ∧ this.(Category.name) = data.(EncodedCategory.name)
  ∧ this.(Category.rowCount) = data.(EncodedCategory.rowCount)
  ∧ (∀ name, is_Some (this.(Category.encodedColumns) !! name)
             ↔ name ∈ Category.columnNames this)
  ∧ (∀ name w, this.(Category.encodedColumns) !! name = Some w →
               w.(EncodedColumn.name) = name ∧ w ∈ data.(EncodedCategory.columns)).
Proof.
  intros this. unfold this.
  assert (∀ name w, Category.encodedColumns (Category.new data) !! name = Some w →
            w.(EncodedColumn.name) = name ∧ w ∈ data.(EncodedCategory.columns)) as Hkey.
  { intros name w. rewrite encodedColumns_last.
    by intros [Hname Hw]%last_Some_elem_of%list_elem_of_filter. }
  rewrite new_columnNames. split_and!.
  - done.
  - unfold Category.new. rewrite new_fold. cbn [Category.columnCount]. by rewrite length_fmap.
  - apply new_name.
  - unfold Category.new. by rewrite new_fold.
  - intros name. split.
    + intros [w Hw]. destruct (Hkey name w Hw) as [<- Hin]. by apply list_elem_of_fmap_2.
    + intros Hin. rewrite new_encodedColumns.
      destruct (register_lookup_Some _ ∅ name Hin) as (w & Hw & _). by exists w.
  - exact Hkey.
Qed.

Lemma Category_new_invariants_witness :
  is_Some (Category.encodedColumns (Category.new sampleCategory) !! "id").
Proof.
  destruct (Category_new_invariants sampleCategory) as (Hnames & _ & _ & _ & H & _).
  apply H. rewrite Hnames. apply list_elem_of_further, list_elem_of_here.
Defined.

(** X17: the constructor of DataBlock keeps the categories in their
    order and copies the header; [getCategory] returns undefined for a name
    that no category has, and otherwise the last category declared with
    that name, which is one of [categories]. *)
Theorem DataBlock_getCategory (data : EncodedDataBlock.t) :
  let this := DataBlock.new data in
  DataBlock.categories this = Category.new <$> data.(EncodedDataBlock.categories)
  ∧ this.(DataBlock.header) = data.(EncodedDataBlock.header)
  ∧ (∀ name,
       DataBlock.getCategory this name
       = Category.new <$>
           last (filter (λ c, c.(EncodedCategory.name) = name)
                   data.(EncodedDataBlock.categories)))
  ∧ (∀ name, name ∉ EncodedCategory.name <$> data.(EncodedDataBlock.categories) →
             DataBlock.getCategory this name = None)
  ∧ (∀ name, name ∈ EncodedCategory.name <$> data.(EncodedDataBlock.categories) →
             ∃ c, DataBlock.getCategory this name = Some c ∧ c.(Category.name) = name
                  ∧ c ∈ DataBlock.categories this).
Proof.
  intros this. unfold this. split_and!; [done|done|apply categoryMap_last|..].
  - intros name Hnot. rewrite categoryMap_last.
    replace (filter _ _) with (@nil EncodedCategory.t); [done|].
    symmetry. apply elem_of_nil_inv. intros c [Hname Hc]%list_elem_of_filter.
    apply Hnot. rewrite <-Hname. by apply list_elem_of_fmap_2.
  - intros name (c & -> & Hc)%list_elem_of_fmap. rewrite categoryMap_last.
    destruct (last (filter _ _)) as [c'|] eqn:Hlast.
    + apply last_Some_elem_of, list_elem_of_filter in Hlast as [Hname Hc'].
      exists (Category.new c'). split_and!; [done|by rewrite new_name|].
      by apply list_elem_of_fmap_2.
    + apply last_None in Hlast.
      assert (c ∈ filter (λ x, EncodedCategory.name x = EncodedCategory.name c)
                         (EncodedDataBlock.categories data)) as Hf
        by (by apply list_elem_of_filter).
      rewrite Hlast in Hf. by apply elem_of_nil in Hf.
Qed.

Lemma DataBlock_getCategory_witness :
  DataBlock.getCategory
    (DataBlock.new {| EncodedDataBlock.header := "1ABC";
                      EncodedDataBlock.categories := [sampleCategory] |}) "cell"
  = None.
Proof.
  destruct (DataBlock_getCategory {| EncodedDataBlock.header := "1ABC";
                                     EncodedDataBlock.categories := [sampleCategory] |})
    as (_ & _ & _ & H & _).
  apply H. simpl. intros Hin. apply list_elem_of_singleton in Hin. discriminate.
Defined.

(** ** The JSON projections *)

Lemma Result_mapM_Ok {A B} (f : A → Result B) (l : list A) (ys : list B) :
  Result_mapM f l = Ok ys ↔ Forall2 (λ x y, f x = Ok y) l ys.
Proof.
  revert ys. induction l as [|x l IH]; intros ys; simpl.
  - split; [by intros [= <-]; constructor|]. by intros ->%Forall2_nil_inv_l.
  - split.
    + destruct (f x) as [y| |] eqn:Hy; try done. cbn [mbind Result_bind].
      destruct (Result_mapM f l) as [ys'| |]; try done. cbn [mbind Result_bind].
      intros [= <-]. constructor; [done|]. by apply IH.
    + intros (y & ys' & Hy & Hys & ->)%Forall2_cons_inv_l.
      rewrite Hy. cbn [mbind Result_bind]. apply IH in Hys. by rewrite Hys.
Qed.

Lemma array_set_rows {A} (item : nat → A) (n : nat) :
  for_range 0 n 1 (λ i rows, array_set rows i (item i)) [] = Some ∘ item <$> seq 0 n.
Proof.
  replace n with ((n - 0 + 1 - 1) / 1)%nat at 2 by (rewrite Nat.div_1_r; lia).
  apply (for_range_ind (λ h rows, rows = Some ∘ item <$> seq 0 h)); [done|].
  intros h rows _ ->. rewrite Nat.add_0_l, Nat.mul_1_r, seq_S, fmap_app.
  unfold array_set. rewrite length_fmap, length_seq, Nat.ltb_irrefl, Nat.sub_diag. done.
Qed.

Lemma Result_mapM_Throw {A B} (f : A → Result B) (l : list A) (e : Exception) :
  Result_mapM f l = Throw e → ∃ x, x ∈ l ∧ f x = Throw e.
Proof.
  induction l as [|x l IH]; simpl; [done|].
  destruct (f x) as [y| |] eqn:Hy; try done; cbn [mbind Result_bind].
  - destruct (Result_mapM f l) as [ys| |]; try done. cbn [mbind Result_bind].
    intros Hl. destruct (IH Hl) as (x' & Hx' & Hf). exists x'.
    split; [by apply list_elem_of_further|done].
  - intros [= <-]. exists x. split; [apply list_elem_of_here|done].
Qed.

Lemma assign_lookup_ne (o : Obj.t) (key name : string) (v : Val) :
  key ≠ name → Obj.own (Obj.assign o key v) !! name = Obj.own o !! name.
Proof.
  intros Hne. unfold Obj.assign.
  destruct (bool_decide (key = "__proto__") && Obj.inherits o).
  - by destruct v.
  - cbn [Obj.own]. by rewrite lookup_insert_ne.
Qed.

Lemma assign_lookup_eq (o : Obj.t) (key : string) (v : Val) :
  key ≠ "__proto__" → Obj.own (Obj.assign o key v) !! key = Some v.
Proof.
  intros Hne. unfold Obj.assign. rewrite (bool_decide_eq_false_2 _ Hne).
  cbn [andb Obj.own]. by rewrite lookup_insert_eq.
Qed.

Lemma setCell_assign numberToString (i : nat) (item : Obj.t) (c : string * Column) :
  setCell numberToString i item c = Obj.assign item c.1 (cell numberToString c.2 i).
Proof.
  unfold setCell, cell.
  destruct (Val_strictEq _ (VNum (Int ValuePresence.Present))); [done|].
  by destruct (Val_strictEq _ (VNum (Int ValuePresence.NotSpecified))).
Qed.

Lemma item_lookup numberToString (i : nat) (columns : list (string * Column)) (item : Obj.t)
    (name : string) :
  name ≠ "__proto__" →
  Obj.own (foldl (setCell numberToString i) item columns) !! name
  = from_option (λ c, Some (cell numberToString c.2 i)) (Obj.own item !! name)
      (last (filter (λ c, c.1 = name) columns)).
Proof.
  intros Hname. revert item. induction columns as [|c columns IH]; intros item; [done|].
  cbn [foldl]. rewrite IH, filter_cons, setCell_assign.
  destruct (decide (c.1 = name)) as [Hc|Hc].
  - rewrite last_cons. destruct (last (filter _ columns)); [done|].
    cbn [from_option]. rewrite <-Hc. apply assign_lookup_eq. by rewrite Hc.
  - destruct (last (filter _ columns)); [done|]. cbn [from_option].
    by apply assign_lookup_ne.
Qed.

Lemma item_inherits numberToString (i : nat) (columns : list (string * Column))
    (item : Obj.t) :
  "__proto__" ∉ columns.*1 →
  Obj.inherits (foldl (setCell numberToString i) item columns) = Obj.inherits item.
Proof.
  revert item. induction columns as [|c columns IH]; intros item Hnot; [done|].
  rewrite fmap_cons, not_elem_of_cons in Hnot. destruct Hnot as [Hne Hnot].
  cbn [foldl]. rewrite IH, setCell_assign by done. unfold Obj.assign.
  by rewrite bool_decide_eq_false_2 by done.
Qed.

Lemma item_lookup_None numberToString (i : nat) (columns : list (string * Column))
    (item : Obj.t) (name : string) :
  name ∉ columns.*1 →
  Obj.own (foldl (setCell numberToString i) item columns) !! name = Obj.own item !! name.
Proof.
  revert item. induction columns as [|c columns IH]; intros item Hnot; [done|].
  rewrite fmap_cons, not_elem_of_cons in Hnot. destruct Hnot as [Hne Hnot].
  cbn [foldl]. rewrite IH, setCell_assign by done. by apply assign_lookup_ne.
Qed.

Lemma assign_proto (o : Obj.t) (key : string) (v : Val) :
  (Obj.inherits o = true → Obj.own o !! "__proto__" = None) →
  Obj.inherits (Obj.assign o key v) = true →
  Obj.own (Obj.assign o key v) !! "__proto__" = None.
Proof.
  intros Hinv. unfold Obj.assign.
  destruct (decide (key = "__proto__")) as [Hkey|Hkey].
  - rewrite (bool_decide_eq_true_2 _ Hkey). destruct (Obj.inherits o) eqn:Hinh.
    + cbn [andb]. destruct v; cbn [Obj.inherits Obj.own]; try rewrite Hinh; try done.
      all: intros _; by apply Hinv.
    + cbn [andb Obj.inherits]. done.
  - rewrite (bool_decide_eq_false_2 _ Hkey). cbn [andb Obj.inherits Obj.own].
    intros Hinh. rewrite lookup_insert_ne by done. by apply Hinv.
Qed.

Lemma item_proto numberToString (i : nat) (columns : list (string * Column)) (item : Obj.t) :
  (Obj.inherits item = true → Obj.own item !! "__proto__" = None) →
  Obj.inherits (foldl (setCell numberToString i) item columns) = true →
  Obj.own (foldl (setCell numberToString i) item columns) !! "__proto__" = None.
Proof.
  revert item. induction columns as [|c columns IH]; intros item Hinv; [done|].
  cbn [foldl]. apply IH. rewrite setCell_assign. by apply assign_proto.
Qed.

Lemma columns_resolved (host : bool) (this : Category.t) (names : list string)
    (columns : list (string * Column)) :
  Result_mapM (λ name, column ← Category.getColumn host this name; Ok (name, column)) names
  = Ok columns →
  columns.*1 = names ∧ Forall (λ c, Category.getColumn host this c.1 = Ok c.2) columns.
Proof.
  intros H%Result_mapM_Ok. induction H as [|name c names columns Hc _ [IH1 IH2]]; [done|].
  destruct (Category.getColumn host this name) as [column| |] eqn:Hcol; try done.
  injection Hc as <-. split; [by rewrite fmap_cons, IH1|]. by constructor.
Qed.

Lemma columns_last_Some (host : bool) (this : Category.t) (columns : list (string * Column))
    (name : string) :
  Forall (λ c, Category.getColumn host this c.1 = Ok c.2) columns → name ∈ columns.*1 →
  ∃ column, Category.getColumn host this name = Ok column
            ∧ last (filter (λ c, c.1 = name) columns) = Some (name, column).
Proof.
  intros Hcols (c & -> & Hc)%list_elem_of_fmap.
  destruct (last (filter (λ x, x.1 = c.1) columns)) as [x|] eqn:Hlast.
  - apply last_Some_elem_of, list_elem_of_filter in Hlast as [Hname Hx].
    rewrite Forall_forall in Hcols. exists x.2. rewrite <-Hname. split; [by apply Hcols|].
    by destruct x.
  - apply last_None in Hlast.
    assert (c ∈ filter (λ x, x.1 = c.1) columns) as Hf by (by apply list_elem_of_filter).
    rewrite Hlast in Hf. by apply elem_of_nil in Hf.
Qed.

Lemma columns_last_None (columns : list (string * Column)) (name : string) :
  name ∉ columns.*1 → last (filter (λ c, c.1 = name) columns) = None.
Proof.
  intros Hnot. apply last_None, elem_of_nil_inv. intros c [Hname Hc]%list_elem_of_filter.
  apply Hnot. rewrite <-Hname. by apply list_elem_of_fmap_2.
Qed.

Section toJSON_properties.
Variable numberToString : Num → string.
Variable host : bool.

Lemma Category_toJSON_Ok (this : Category.t) (json : CategoryJSON.t) :
  Category_toJSON numberToString host this = Ok json →
  ∃ columns,
    columns.*1 = Category.columnNames this
    ∧ Forall (λ c, Category.getColumn host this c.1 = Ok c.2) columns
    ∧ json = {| CategoryJSON.name := this.(Category.name);
                CategoryJSON.columns := Category.columnNames this;
                CategoryJSON.rows :=
                  Some ∘ (λ i, foldl (setCell numberToString i) Obj.empty columns)
                  <$> seq 0 (Z.to_nat this.(Category.rowCount)) |}.
Proof.
  unfold Category_toJSON.
  destruct (Result_mapM _ _) as [columns| |] eqn:Hcols; try done. cbn [mbind Result_bind].
  apply columns_resolved in Hcols as [Hnames Hcols].
  intros [= <-]. exists columns. split_and!; [done..|].
  by rewrite (array_set_rows (λ i, foldl (setCell numberToString i) Obj.empty columns)).
Qed.

Lemma Category_toJSON_returns (this : Category.t) :
  (∃ json, Category_toJSON numberToString host this = Ok json)
  ↔ ∀ name, name ∈ Category.columnNames this →
      ∃ column, Category.getColumn host this name = Ok column.
Proof.
  split.
  - intros [json (columns & Hnames & Hcols & _)%Category_toJSON_Ok] name Hname.
    rewrite <-Hnames in Hname.
    by destruct (columns_last_Some host this columns name Hcols Hname) as (column & Hc & _);
      exists column.
  - intros Hall. unfold Category_toJSON.
    assert (∃ columns,
      Result_mapM (λ name, column ← Category.getColumn host this name; Ok (name, column))
        (Category.columnNameList this) = Ok columns) as [columns ->]; [|by eexists].
    change (Category.columnNames this) with (Category.columnNameList this) in Hall.
    induction (Category.columnNameList this) as [|name names IH]; [by eexists|].
    destruct (Hall name) as [column Hcolumn]; [apply list_elem_of_here|].
    destruct IH as [columns Hcolumns]; [intros n Hn; by apply Hall, list_elem_of_further|].
    exists ((name, column) :: columns). simpl. rewrite Hcolumn. cbn [mbind Result_bind].
    by rewrite Hcolumns.
Qed.

(** X18: [Category.toJSON] returns exactly when [getColumn] returns for
    every column name, whatever the number of rows, and an exception that
    it throws is the exception of [getColumn] for one of the column names.
    The object that it returns carries the name and the column names of
    the category and rowCount rows without a hole. A row has no own key
    that is not a column name, and for every column name other than
    "__proto__" its cell is getString(i) of the column when
    getValuePresence(i) is 0 (Present), '.' when it is 1 (NotSpecified) and
    '?' otherwise. An assignment to the key "__proto__" reaches the setter
    of Object.prototype: a row that inherits from Object.prototype has no
    own key "__proto__", so that a column of this name has no cell in it,
    and every row inherits from Object.prototype when no column has this
    name. *)
Theorem Category_toJSON_cells (this : Category.t) :
  ((∃ json, Category_toJSON numberToString host this = Ok json)
   ↔ ∀ name, name ∈ Category.columnNames this →
       ∃ column, Category.getColumn host this name = Ok column)
  ∧ (∀ e, Category_toJSON numberToString host this = Throw e →
       ∃ name, name ∈ Category.columnNames this
               ∧ Category.getColumn host this name = Throw e)
  ∧ (∀ json, Category_toJSON numberToString host this = Ok json →
     json.(CategoryJSON.name) = this.(Category.name)
     ∧ json.(CategoryJSON.columns) = Category.columnNames this
     ∧ length json.(CategoryJSON.rows) = Z.to_nat this.(Category.rowCount)
     ∧ ∀ i, (i < Z.to_nat this.(Category.rowCount))%nat →
         ∃ item, json.(CategoryJSON.rows) !! i = Some (Some item)
           ∧ (∀ name, name ∉ Category.columnNames this → Obj.own item !! name = None)
           ∧ ("__proto__" ∉ Category.columnNames this → Obj.inherits item = true)
           ∧ (Obj.inherits item = true → Obj.own item !! "__proto__" = None)
           ∧ ∀ name, name ∈ Category.columnNames this → name ≠ "__proto__" →
               ∃ column, Category.getColumn host this name = Ok column
                 ∧ Obj.own item !! name
                   = Some (let d := Column_getValuePresence column i in
                           if Val_strictEq d (VNum (Int 0))
                           then Column_getString numberToString column i
                           else if Val_strictEq d (VNum (Int 1)) then VString "."
                           else VString "?")).
Proof.
  split_and!.
  - apply Category_toJSON_returns.
  - intros e. unfold Category_toJSON.
    destruct (Result_mapM _ _) as [columns| |] eqn:Hcols; try done. cbn [mbind Result_bind].
    intros [= <-]. apply Result_mapM_Throw in Hcols as (name & Hname & Hcol).
    exists name. split; [done|].
    by destruct (Category.getColumn host this name) as [column| |]; simplify_eq/=.
  - intros json (columns & Hnames & Hcols & ->)%Category_toJSON_Ok.
    cbn [CategoryJSON.name CategoryJSON.columns CategoryJSON.rows].
    split_and!; [done|done|by rewrite length_fmap, length_seq|].
    intros i Hi. eexists. split_and!.
    + rewrite list_lookup_fmap, lookup_seq_lt by done. reflexivity.
    + intros name Hname. rewrite item_lookup_None by (by rewrite Hnames). done.
    + intros Hproto. rewrite item_inherits by (by rewrite Hnames). done.
    + by apply item_proto.
    + intros name Hname Hproto. rewrite <-Hnames in Hname.
      destruct (columns_last_Some host this columns name Hcols Hname) as (column & Hc & Hlast).
      exists column. split; [done|]. by rewrite item_lookup, Hlast.
Qed.

End toJSON_properties.

Lemma Category_toJSON_cells_witness :
  ∃ json item,
    Category_toJSON (λ _, "n") true (Category.new sampleCategory) = Ok json
    ∧ json.(CategoryJSON.rows) !! 0%nat = Some (Some item)
    ∧ Obj.own item !! "id" = Some (VString "n").
Proof.
  destruct (Category_toJSON_cells (λ _, "n") true (Category.new sampleCategory))
    as (Hreturns & _ & Hcells).
  destruct (proj2 Hreturns) as [json Hjson].
  { intros name Hname.
    destruct (decide (name = "a")) as [->|Ha]; [by eexists|].
    destruct (decide (name = "id")) as [->|Hid]; [by eexists|].
    exfalso. vm_compute in Hname.
    apply elem_of_cons in Hname as [->|Hname]; [done|].
    apply elem_of_cons in Hname as [->|Hname]; [done|]. by apply elem_of_nil in Hname. }
  destruct (Hcells json Hjson) as (_ & _ & _ & Hrows).
  destruct (Hrows 0%nat ltac:(vm_compute; lia)) as (item & Hitem & _ & _ & _ & Hcell).
  destruct (Hcell "id") as (column & Hcolumn & Hid).
  { apply list_elem_of_further, list_elem_of_here. }
  { discriminate. }
  exists json, item. split_and!; [done..|].
  vm_compute in Hcolumn. injection Hcolumn as <-. exact Hid.
Defined.

Lemma DataBlock_toJSON_Ok numberToString host (this : DataBlock.t) (json : DataBlockJSON.t) :
  DataBlock.toJSON numberToString host this = Ok json →
  json.(DataBlockJSON.id) = this.(DataBlock.header)
  ∧ json.(DataBlockJSON.additionalData) = this.(DataBlock.additionalData)
  ∧ Forall2 (λ c cj, Category_toJSON numberToString host c = Ok cj)
            this.(DataBlock.categoryList) json.(DataBlockJSON.categories).
Proof.
  unfold DataBlock.toJSON.
  destruct (Result_mapM _ _) as [categories| |] eqn:Hc; try done. cbn [mbind Result_bind].
  intros [= <-]. split_and!; [done..|]. by apply Result_mapM_Ok.
Qed.

(** X19: when [File.toJSON] of a new File returns, it returns one object
    per data block, in order, whose id is the header of the block, whose
    additionalData is empty, and whose categories are, in order, the JSON
    objects of the categories of the block: each with the name, the column
    names and as many rows as the rowCount of its encoded category. *)
Theorem File_toJSON_shape numberToString (host : bool) (data : EncodedFile.t)
    (json : list DataBlockJSON.t) :
  File.toJSON numberToString host (File.new data) = Ok json →
  Forall2 (λ b bj,
    bj.(DataBlockJSON.id) = b.(EncodedDataBlock.header)
    ∧ bj.(DataBlockJSON.additionalData) = ∅
    ∧ Forall2 (λ c cj,
        cj.(CategoryJSON.name) = c.(EncodedCategory.name)
        ∧ cj.(CategoryJSON.columns) = EncodedColumn.name <$> c.(EncodedCategory.columns)
        ∧ length cj.(CategoryJSON.rows) = Z.to_nat c.(EncodedCategory.rowCount))
        b.(EncodedDataBlock.categories) bj.(DataBlockJSON.categories))
    data.(EncodedFile.dataBlocks) json.
Proof.
  unfold File.toJSON, File.new. cbn [File.dataBlocks]. intros H%Result_mapM_Ok.
  apply Forall2_fmap_l in H. eapply Forall2_impl; [exact H|].
  intros b bj (Hid & Hadd & Hcats)%DataBlock_toJSON_Ok. split_and!; [done..|].
  unfold DataBlock.new in Hcats. cbn [DataBlock.categoryList] in Hcats.
  apply Forall2_fmap_l in Hcats. eapply Forall2_impl; [exact Hcats|].
  intros c cj (columns & Hnames & _ & ->)%Category_toJSON_Ok.
  cbn [CategoryJSON.name CategoryJSON.columns CategoryJSON.rows].
  rewrite new_name, new_columnNames, length_fmap, length_seq.
  split_and!; [done..|]. unfold Category.new. by rewrite new_fold.
Qed.

Lemma File_toJSON_shape_witness :
  Forall2 (λ b bj,
    bj.(DataBlockJSON.id) = b.(EncodedDataBlock.header)
    ∧ bj.(DataBlockJSON.additionalData) = ∅
    ∧ Forall2 (λ c cj,
        cj.(CategoryJSON.name) = c.(EncodedCategory.name)
        ∧ cj.(CategoryJSON.columns) = EncodedColumn.name <$> c.(EncodedCategory.columns)
        ∧ length cj.(CategoryJSON.rows) = Z.to_nat c.(EncodedCategory.rowCount))
        b.(EncodedDataBlock.categories) bj.(DataBlockJSON.categories))
    [{| EncodedDataBlock.header := "1ABC"; EncodedDataBlock.categories := [sampleCategory] |}]
    [{| DataBlockJSON.id := "1ABC";
        DataBlockJSON.categories :=
          [{| CategoryJSON.name := "atom_site";
              CategoryJSON.columns := ["a"; "id"];
              CategoryJSON.rows :=
                [Some {| Obj.own := {[ "a" := VNull; "id" := VString "n" ]};
                         Obj.inherits := true |}] |}];
        DataBlockJSON.additionalData := ∅ |}].
Proof.
  apply (File_toJSON_shape (λ _, "n") true
    {| EncodedFile.version := "0.3.0"; EncodedFile.encoder := "e";
       EncodedFile.dataBlocks :=
         [{| EncodedDataBlock.header := "1ABC";
             EncodedDataBlock.categories := [sampleCategory] |}] |}).
  vm_compute. reflexivity.
Defined.
